(** * tracing-ts: the span lifecycle and event-dispatch engine

    A shallow embedding of [src/index.ts] (the core) and of the
    [CollectorSubscriber] of [src/subscribers.ts], with the properties of
    the specification stated and proved over it.

    The module's three global variables, the [Span] objects allocated so
    far, the wall clock and the state outside the module (the state the
    subscriber's methods read and change) form a [World]; every function
    of the module is a state transformer on worlds that completes either
    normally or by throwing. *)

From Stdlib Require Import ZArith String List Bool Lia.
From stdpp Require Import base tactics option list.
Import ListNotations.

Local Open Scope string_scope.
Local Open Scope list_scope.

(** ** Values *)

(** Run-time values, as far as the core looks at them.  Numbers are the
    integers (the core only counts with them and reads the clock);
    an object is the list of its own properties in insertion order. *)
#[warnings="-register-all"]
Inductive JsValue : Type :=
| JUndefined
| JNull
| JBool (b : bool)
| JNum (n : Z)
| JStr (s : string)
| JArr (l : list JsValue)
| JObj (o : list (string * JsValue)).

(** [Record<string, unknown>] *)
Definition Obj : Type := list (string * JsValue).

(** [key in o]: [Object.prototype] has neither of the keys the core asks
    for, so presence is presence among the own properties. *)
Fixpoint obj_has (key : string) (o : Obj) : bool :=
  match o with
  | [] => false
  | (k, _) :: o' => if String.eqb k key then true else obj_has key o'
  end.

(** [o.key], [undefined] when the property is absent. *)
Fixpoint obj_get (key : string) (o : Obj) : JsValue :=
  match o with
  | [] => JUndefined
  | (k, v) :: o' => if String.eqb k key then v else obj_get key o'
  end.

(** [o[key] = v]: an existing property keeps its place, a new one goes
    last. *)
Fixpoint obj_set (key : string) (v : JsValue) (o : Obj) : Obj :=
  match o with
  | [] => [(key, v)]
  | (k, v') :: o' =>
      if String.eqb k key then (k, v) :: o' else (k, v') :: obj_set key v o'
  end.

(** [{ ...fields }] for [fields?: Fields]: the own properties, none when
    [fields] is [undefined]. *)
Definition spread (fields : option Obj) : Obj :=
  match fields with
  | Some o => o
  | None => []
  end.

(** ** Data model of [index.ts] *)

Inductive Level : Type := TRACE | DEBUG | INFO | WARN | ERROR.

Definition level_value (l : Level) : Z :=
  match l with
  | TRACE => 0
  | DEBUG => 1
  | INFO => 2
  | WARN => 3
  | ERROR => 4
  end.

(** [Metadata].  [target] is declared [string | undefined], but the
    emitters fill it from an unchecked cast ([options as LogOptions]), so
    at run time it is whatever value the caller's object held. *)
Record Metadata : Type := mkMetadata {
  level : Level;
  target : JsValue;
  file : option string;
  line : option Z
}.

(** [Partial<Metadata>] *)
Record PartialMetadata : Type := mkPartialMetadata {
  p_level : option Level;
  p_target : JsValue;
  p_file : option string;
  p_line : option Z
}.

(** [{}] as a [Partial<Metadata>] *)
Definition no_metadata : PartialMetadata :=
  mkPartialMetadata None JUndefined None None.

#[warnings="-register-all"]
Inductive SpanContext : Type :=
| mkSpanContext (id : Z) (name : string) (metadata : Metadata)
    (fields : Obj) (parent : option SpanContext) (startTime : Z).

Definition sc_id (c : SpanContext) : Z :=
  match c with mkSpanContext i _ _ _ _ _ => i end.
Definition sc_name (c : SpanContext) : string :=
  match c with mkSpanContext _ n _ _ _ _ => n end.
Definition sc_metadata (c : SpanContext) : Metadata :=
  match c with mkSpanContext _ _ m _ _ _ => m end.
Definition sc_fields (c : SpanContext) : Obj :=
  match c with mkSpanContext _ _ _ f _ _ => f end.
Definition sc_parent (c : SpanContext) : option SpanContext :=
  match c with mkSpanContext _ _ _ _ p _ => p end.
Definition sc_startTime (c : SpanContext) : Z :=
  match c with mkSpanContext _ _ _ _ _ t => t end.

(** [Event].  [fields] comes through the same unchecked cast as
    [target]. *)
Record Event : Type := mkEvent {
  e_metadata : Metadata;
  e_message : string;
  e_fields : JsValue;
  e_span : option SpanContext;
  e_timestamp : Z
}.

(** The private state of a [Span] object. *)
Record Span : Type := mkSpan {
  context : SpanContext;
  previousSpan : option SpanContext;
  entered : bool
}.

(** How a call ends: [return] or [throw]. *)
Inductive Completion (A : Type) : Type :=
| Normal (a : A)
| Throw (e : JsValue).
Arguments Normal {A} a.
Arguments Throw {A} e.

(** What the core asks of the subscriber, in the order it asks. *)
Inductive Call : Type :=
| CallOnSpanEnter (c : SpanContext)
| CallOnSpanExit (c : SpanContext)
| CallOnEvent (e : Event)
| CallEnabled (m : Metadata).

Definition enterCalls (l : list Call) : list SpanContext :=
  omap (fun c => match c with CallOnSpanEnter x => Some x | _ => None end) l.
Definition exitCalls (l : list Call) : list SpanContext :=
  omap (fun c => match c with CallOnSpanExit x => Some x | _ => None end) l.
Definition eventCalls (l : list Call) : list Event :=
  omap (fun c => match c with CallOnEvent x => Some x | _ => None end) l.

Section Core.

(** The state outside the module: what the subscriber's methods (and the
    caller's own code) read and change. *)
Variable Ext : Type.

(** [interface Subscriber].  A method changes the outside state and
    returns or throws; it does not call back into the module. *)
Record Subscriber : Type := mkSubscriber {
  onSpanEnter : SpanContext -> Ext -> Completion unit * Ext;
  onSpanExit : SpanContext -> Ext -> Completion unit * Ext;
  onEvent : Event -> Ext -> Completion unit * Ext;
  enabled : Metadata -> Ext -> Completion bool * Ext
}.

Record World : Type := mkWorld {
  globalSubscriber : option Subscriber;   (* [null] is [None] *)
  spanIdCounter : Z;
  currentSpan : option SpanContext;
  heap : list Span;                       (* a [Span] handle is its index *)
  ext : Ext;
  clock : Z;                              (* what [Date.now()] returns *)
  clockReads : nat;                       (* how often it was asked *)
  calls : list Call                       (* the subscriber calls made so far *)
}.

(** The module as loaded: [globalSubscriber = null], [spanIdCounter = 0],
    [currentSpan] undefined, no [Span] constructed. *)
Definition initial (e : Ext) (now : Z) : World :=
  mkWorld None 0 None [] e now 0 [].

Definition set_globalSubscriber (s : option Subscriber) (w : World) : World :=
  mkWorld s (spanIdCounter w) (currentSpan w) (heap w) (ext w) (clock w)
    (clockReads w) (calls w).
Definition set_spanIdCounter (n : Z) (w : World) : World :=
  mkWorld (globalSubscriber w) n (currentSpan w) (heap w) (ext w) (clock w)
    (clockReads w) (calls w).
Definition set_currentSpan (c : option SpanContext) (w : World) : World :=
  mkWorld (globalSubscriber w) (spanIdCounter w) c (heap w) (ext w) (clock w)
    (clockReads w) (calls w).
Definition set_heap (h : list Span) (w : World) : World :=
  mkWorld (globalSubscriber w) (spanIdCounter w) (currentSpan w) h (ext w)
    (clock w) (clockReads w) (calls w).
Definition set_clock (t : Z) (w : World) : World :=
  mkWorld (globalSubscriber w) (spanIdCounter w) (currentSpan w) (heap w)
    (ext w) t (clockReads w) (calls w).

(** ** Computations *)

Definition M (A : Type) : Type := World -> Completion A * World.

Definition ret {A} (a : A) : M A := fun w => (Normal a, w).

Definition throw {A} (e : JsValue) : M A := fun w => (Throw e, w).

Definition bind {A B} (m : M A) (k : A -> M B) : M B :=
  fun w =>
    match m w with
    | (Normal a, w') => k a w'
    | (Throw e, w') => (Throw e, w')
    end.

(** [try { body } finally { fin }]: [fin] runs on both paths, and when it
    throws its error replaces the completion of [body]. *)
Definition try_finally {A} (body : M A) (fin : M unit) : M A :=
  fun w =>
    let (r, w1) := body w in
    match fin w1 with
    | (Normal _, w2) => (r, w2)
    | (Throw e, w2) => (Throw e, w2)
    end.

(** [Date.now()] *)
Definition Date_now : M Z :=
  fun w =>
    (Normal (clock w),
     mkWorld (globalSubscriber w) (spanIdCounter w) (currentSpan w) (heap w)
       (ext w) (clock w) (S (clockReads w)) (calls w)).

(** [globalSubscriber?.method(arg)]: nothing happens and the value is
    [undefined] ([None]) when no subscriber is installed. *)
Definition notify {A} (method : Subscriber -> Ext -> Completion A * Ext)
    (c : Call) : M (option A) :=
  fun w =>
    match globalSubscriber w with
    | None => (Normal None, w)
    | Some sub =>
        let (r, e) := method sub (ext w) in
        let w' :=
          mkWorld (globalSubscriber w) (spanIdCounter w) (currentSpan w)
            (heap w) e (clock w) (clockReads w) (calls w ++ [c]) in
        match r with
        | Normal a => (Normal (Some a), w')
        | Throw x => (Throw x, w')
        end
    end.

(** ** The module's functions *)

(** [setGlobalSubscriber(subscriber)] *)
Definition setGlobalSubscriber (subscriber : Subscriber) : M unit :=
  fun w => (Normal tt, set_globalSubscriber (Some subscriber) w).

(** [currentSpanContext()] *)
Definition currentSpanContext : M (option SpanContext) :=
  fun w => (Normal (currentSpan w), w).

(** [new Span(name, fields = {}, metadata = {})].  The object literal is
    evaluated in source order: [++spanIdCounter], the metadata with
    [level ?? Level.INFO], [parent: currentSpan], [Date.now()].  The new
    object starts with [previousSpan] undefined and [entered = false]; the
    handle returned is its place in the heap. *)
Definition Span_new (name : string) (fields : option Obj)
    (metadata : option PartialMetadata) : M nat :=
  fun w =>
    let md := default no_metadata metadata in
    let id := (spanIdCounter w + 1)%Z in
    bind Date_now (fun now w' =>
      let ctx :=
        mkSpanContext id name
          (mkMetadata (default INFO (p_level md)) (p_target md) (p_file md)
             (p_line md))
          (default [] fields) (currentSpan w') now in
      (Normal (length (heap w')),
       set_heap (heap w' ++ [mkSpan ctx None false]) w'))
      (set_spanIdCounter id w).

(** [span(name, fields = {}, metadata = {})] *)
Definition span (name : string) (fields : option Obj)
    (metadata : option PartialMetadata) : M nat :=
  Span_new name fields metadata.

(** [Span.enter()].  A handle that was never allocated has no object to
    act on; the model leaves the world alone there. *)
Definition enter (h : nat) : M nat :=
  fun w =>
    match heap w !! h with
    | None => (Normal h, w)
    | Some s =>
        if entered s then (Normal h, w)
        else
          let w1 :=
            set_currentSpan (Some (context s))
              (set_heap
                 (<[h := mkSpan (context s) (currentSpan w) true]> (heap w)) w) in
          bind
            (notify (fun sub => onSpanEnter sub (context s))
               (CallOnSpanEnter (context s)))
            (fun _ => ret h) w1
    end.

(** [Span.exit()]: the subscriber is told first, then the state is put
    back. *)
Definition exit (h : nat) : M unit :=
  fun w =>
    match heap w !! h with
    | None => (Normal tt, w)
    | Some s =>
        if entered s then
          bind
            (notify (fun sub => onSpanExit sub (context s))
               (CallOnSpanExit (context s)))
            (fun _ w1 =>
               (Normal tt,
                set_heap
                  (<[h := mkSpan (context s) (previousSpan s) false]> (heap w1))
                  (set_currentSpan (previousSpan s) w1))) w
        else (Normal tt, w)
    end.

(** [Span.run(fn)] *)
Definition run {A} (h : nat) (fn : M A) : M A :=
  bind (enter h) (fun _ => try_finally fn (exit h)).

(** [Span.getContext()] *)
Definition getContext (h : nat) (w : World) : option SpanContext :=
  context <$> heap w !! h.

(** [Span.runAsync(fn)] runs in two synchronous pieces.  The first goes
    up to the [await]: it enters, calls [fn] and is left waiting for the
    promise [fn] returned; if [enter] or [fn] throws the returned promise
    is rejected at once ([finally] running when it was [fn]). *)
Inductive AsyncState (P : Type) : Type :=
| Rejected (e : JsValue)
| Awaiting (h : nat) (p : P).
Arguments Rejected {P} e.
Arguments Awaiting {P} h p.

Definition runAsync_start {P} (h : nat) (fn : M P) : World -> AsyncState P * World :=
  fun w =>
    match enter h w with
    | (Throw e, w1) => (Rejected e, w1)
    | (Normal _, w1) =>
        match fn w1 with
        | (Normal p, w2) => (Awaiting h p, w2)
        | (Throw e, w2) =>
            match exit h w2 with
            | (Normal _, w3) => (Rejected e, w3)
            | (Throw e', w3) => (Rejected e', w3)
            end
        end
    end.

(** The second piece runs when the awaited promise has settled:
    [finally] exits, and the settlement is passed on. *)
Definition runAsync_resume {A} (h : nat) (settled : Completion A) : M A :=
  try_finally (fun w => (settled, w)) (exit h).

(** [recordEvent(level, message, fields = {}, metadata = {})].  [fields]
    is the value the emitter passes, [undefined] giving the default.
    After [enabled] has answered, a subscriber is installed, so the plain
    call [globalSubscriber.onEvent(event)] is [notify] with its
    [Some] branch taken. *)
Definition recordEvent (lvl : Level) (message : string) (fields : JsValue)
    (metadata : option PartialMetadata) : M unit :=
  let md := default no_metadata metadata in
  let fields :=
    match fields with
    | JUndefined => JObj []
    | v => v
    end in
  let fullMetadata := mkMetadata lvl (p_target md) (p_file md) (p_line md) in
  bind (notify (fun sub => enabled sub fullMetadata) (CallEnabled fullMetadata))
    (fun en =>
       match en with
       | Some true =>
           fun w =>
             bind Date_now (fun now =>
               let event :=
                 mkEvent fullMetadata message fields (currentSpan w) now in
               bind (notify (fun sub => onEvent sub event) (CallOnEvent event))
                 (fun _ => ret tt)) w
       | _ => ret tt
       end).

(** What [normalizeLogOptions] returns: [{ target?, fields? }]. *)
Record LogOptions : Type := mkLogOptions {
  o_target : JsValue;
  o_fields : JsValue
}.

(** [normalizeLogOptions(options?)] *)
Definition normalizeLogOptions (options : option Obj) : LogOptions :=
  match options with
  | None => mkLogOptions JUndefined JUndefined
  | Some o =>
      if obj_has "target" o || obj_has "fields" o
      then mkLogOptions (obj_get "target" o) (obj_get "fields" o)
      else mkLogOptions JUndefined (JObj o)
  end.

(** The body the five emitters share, [lvl] being the emitter's level. *)
Definition emit (lvl : Level) (message : string) (options : option Obj) : M unit :=
  let opts := normalizeLogOptions options in
  recordEvent lvl message (o_fields opts)
    (Some (mkPartialMetadata None (o_target opts) None None)).

Definition trace : string -> option Obj -> M unit := emit TRACE.
Definition debug : string -> option Obj -> M unit := emit DEBUG.
Definition info : string -> option Obj -> M unit := emit INFO.
Definition warn : string -> option Obj -> M unit := emit WARN.
Definition error : string -> option Obj -> M unit := emit ERROR.

(** The emitter of each level. *)
Definition emitter (lvl : Level) : string -> option Obj -> M unit :=
  match lvl with
  | TRACE => trace
  | DEBUG => debug
  | INFO => info
  | WARN => warn
  | ERROR => error
  end.

(** [instrument(name, fn, fields?)]: the wrapped function, applied to the
    argument list [args]. *)
Definition instrument {A} (name : string) (fn : list JsValue -> M A)
    (fields : option Obj) : list JsValue -> M A :=
  fun args =>
    bind (span name (Some (obj_set "args" (JArr args) (spread fields))) None)
      (fun s => run s (fn args)).

(** [instrumentAsync(name, fn, fields?)]: the synchronous piece of a call
    of the wrapped function. *)
Definition instrumentAsync {P} (name : string) (fn : list JsValue -> M P)
    (fields : option Obj) : list JsValue -> World -> AsyncState P * World :=
  fun args w =>
    match span name (Some (obj_set "args" (JArr args) (spread fields))) None w with
    | (Normal s, w1) => runAsync_start s (fn args) w1
    | (Throw e, w1) => (Rejected e, w1)
    end.

(** ** Callers *)

(** One step of a program that uses the module: a call of one of its
    functions, or something the module does not see (time passing, the
    caller changing its own state). *)
Inductive Op : Type :=
| OSetGlobalSubscriber (sub : Subscriber)
| OSpan (name : string) (fields : option Obj) (metadata : option PartialMetadata)
| OEnter (h : nat)
| OExit (h : nat)
| OEmit (lvl : Level) (message : string) (options : option Obj)
| OElapse (now : Z)
| OOutside (f : Ext -> Ext).

(** The world after the step, whether the call returned or threw (a
    caller may catch what is thrown and go on). *)
Definition call (o : Op) (w : World) : World :=
  match o with
  | OSetGlobalSubscriber sub => snd (setGlobalSubscriber sub w)
  | OSpan name fields metadata => snd (span name fields metadata w)
  | OEnter h => snd (enter h w)
  | OExit h => snd (exit h w)
  | OEmit lvl message options => snd (emit lvl message options w)
  | OElapse now => set_clock now w
  | OOutside f =>
      mkWorld (globalSubscriber w) (spanIdCounter w) (currentSpan w) (heap w)
        (f (ext w)) (clock w) (clockReads w) (calls w)
  end.

Definition exec (ops : list Op) (w : World) : World :=
  fold_left (fun w o => call o w) ops w.

End Core.

Arguments Subscriber Ext : clear implicits.
Arguments World Ext : clear implicits.
Arguments M Ext A : clear implicits.
Arguments Op Ext : clear implicits.
Arguments mkSubscriber {Ext}.
Arguments onSpanEnter {Ext}.
Arguments onSpanExit {Ext}.
Arguments onEvent {Ext}.
Arguments enabled {Ext}.
Arguments mkWorld {Ext}.
Arguments globalSubscriber {Ext}.
Arguments spanIdCounter {Ext}.
Arguments currentSpan {Ext}.
Arguments heap {Ext}.
Arguments ext {Ext}.
Arguments clock {Ext}.
Arguments clockReads {Ext}.
Arguments calls {Ext}.
Arguments initial {Ext}.
Arguments set_globalSubscriber {Ext}.
Arguments set_spanIdCounter {Ext}.
Arguments set_currentSpan {Ext}.
Arguments set_heap {Ext}.
Arguments set_clock {Ext}.
Arguments ret {Ext A}.
Arguments throw {Ext A}.
Arguments bind {Ext A B}.
Arguments try_finally {Ext A}.
Arguments Date_now {Ext}.
Arguments notify {Ext A}.
Arguments setGlobalSubscriber {Ext}.
Arguments currentSpanContext {Ext}.
Arguments Span_new {Ext}.
Arguments span {Ext}.
Arguments enter {Ext}.
Arguments exit {Ext}.
Arguments run {Ext A}.
Arguments getContext {Ext}.
Arguments runAsync_start {Ext P}.
Arguments runAsync_resume {Ext A}.
Arguments recordEvent {Ext}.
Arguments emit {Ext}.
Arguments trace {Ext}.
Arguments debug {Ext}.
Arguments info {Ext}.
Arguments warn {Ext}.
Arguments error {Ext}.
Arguments emitter {Ext}.
Arguments instrument {Ext A}.
Arguments instrumentAsync {Ext P}.
Arguments OSetGlobalSubscriber {Ext}.
Arguments OSpan {Ext}.
Arguments OEnter {Ext}.
Arguments OExit {Ext}.
Arguments OEmit {Ext}.
Arguments OElapse {Ext}.
Arguments OOutside {Ext}.
Arguments call {Ext}.
Arguments exec {Ext}.

(** ** [CollectorSubscriber] of [subscribers.ts] *)

Inductive Action : Type := ActionEnter | ActionExit.

(** The fields of a [CollectorSubscriber] object. *)
Record Collector : Type := mkCollector {
  events : list Event;
  spans : list (SpanContext * Action);
  minLevel : Level
}.

(** [new CollectorSubscriber(minLevel = Level.TRACE)] *)
Definition Collector_new (minLevel : option Level) : Collector :=
  mkCollector [] [] (default TRACE minLevel).

(** The methods, the outside state being the collector object itself. *)
Definition CollectorSubscriber : Subscriber Collector :=
  {| enabled := fun metadata c =>
       (Normal (level_value (level metadata) >=? level_value (minLevel c))%Z, c);
     onSpanEnter := fun sp c =>
       (Normal tt,
        mkCollector (events c) (spans c ++ [(sp, ActionEnter)]) (minLevel c));
     onSpanExit := fun sp c =>
       (Normal tt,
        mkCollector (events c) (spans c ++ [(sp, ActionExit)]) (minLevel c));
     onEvent := fun ev c =>
       (Normal tt, mkCollector (events c ++ [ev]) (spans c) (minLevel c)) |}.

(** [clear()] *)
Definition Collector_clear (c : Collector) : Collector :=
  mkCollector [] [] (minLevel c).

(** The module as loaded, then [setGlobalSubscriber(new
    CollectorSubscriber(minLevel))]. *)
Definition collecting (minLevel : option Level) (now : Z) : World Collector :=
  snd (setGlobalSubscriber CollectorSubscriber
         (initial (Collector_new minLevel) now)).

(** A subscriber whose [onSpanExit] throws [e] and that is otherwise
    like the collector. *)
Definition FailingExit (e : JsValue) : Subscriber Collector :=
  {| enabled := enabled CollectorSubscriber;
     onSpanEnter := onSpanEnter CollectorSubscriber;
     onSpanExit := fun _ c => (Throw e, c);
     onEvent := onEvent CollectorSubscriber |}.

(** [(x) => x + 1], on the integers. *)
Definition plus_one {Ext} (args : list JsValue) : M Ext JsValue :=
  match args with
  | JNum x :: _ => ret (JNum (x + 1))
  | _ => ret JUndefined
  end.

(** ** Worlds to run the module in *)

(** A collector installed at time 1000, then
    [c = span("c"); c.enter(); a = span("a"); b = span("b")]: the handles
    are 0, 1 and 2, and [c] is the current span. *)
Definition two_spans : World Collector :=
  exec [OSpan "c" None None; OEnter 0; OSpan "a" None None; OSpan "b" None None]
    (collecting None 1000).

Definition ctx_c : SpanContext :=
  mkSpanContext 1 "c" (mkMetadata INFO JUndefined None None) [] None 1000.
Definition ctx_a : SpanContext :=
  mkSpanContext 2 "a" (mkMetadata INFO JUndefined None None) [] (Some ctx_c) 1000.
Definition ctx_b : SpanContext :=
  mkSpanContext 3 "b" (mkMetadata INFO JUndefined None None) [] (Some ctx_c) 1000.

(** The module as loaded, no subscriber, then [a = span("a")]. *)
Definition unsubscribed : World unit :=
  exec [OSpan "a" None None] (initial tt 1000).

(** ** Notions the properties are stated with *)

(** [n] rounds of [s.enter(); s.exit()] on one handle. *)
Definition rounds {Ext} (h : nat) (n : nat) : list (Op Ext) :=
  concat (repeat [OEnter h; OExit h] n).

Section Notions.

Context {Ext : Type}.

Implicit Types (w : World Ext).

(** The context that [new Span(name, fields, metadata)] builds in [w]. *)
Definition new_context w (name : string) (fields : option Obj)
    (metadata : option PartialMetadata) : SpanContext :=
  let md := default no_metadata metadata in
  mkSpanContext (spanIdCounter w + 1) name
    (mkMetadata (default INFO (p_level md)) (p_target md) (p_file md) (p_line md))
    (default [] fields) (currentSpan w) (clock w).

(** Every step is of one of four kinds: it leaves the [Span] objects, the
    counter and the current span alone; it constructs a span; it is an
    [enter] that takes effect; it is an [exit] that takes effect. *)
Inductive Effect w (o : Op Ext) : Prop :=
| Effect_none :
    heap (call o w) = heap w ->
    spanIdCounter (call o w) = spanIdCounter w ->
    currentSpan (call o w) = currentSpan w ->
    Effect w o
| Effect_span name fields metadata :
    o = OSpan name fields metadata ->
    heap (call o w) =
      heap w ++ [mkSpan (new_context w name fields metadata) None false] ->
    spanIdCounter (call o w) = (spanIdCounter w + 1)%Z ->
    currentSpan (call o w) = currentSpan w ->
    Effect w o
| Effect_enter h s :
    o = OEnter h ->
    heap w !! h = Some s -> entered s = false ->
    heap (call o w) = <[h := mkSpan (context s) (currentSpan w) true]> (heap w) ->
    spanIdCounter (call o w) = spanIdCounter w ->
    currentSpan (call o w) = Some (context s) ->
    Effect w o
| Effect_exit h s :
    o = OExit h ->
    heap w !! h = Some s -> entered s = true ->
    heap (call o w) = <[h := mkSpan (context s) (previousSpan s) false]> (heap w) ->
    spanIdCounter (call o w) = spanIdCounter w ->
    currentSpan (call o w) = previousSpan s ->
    Effect w o.

(** The installed subscriber's [onSpanExit] returns whatever it is given
    (no subscriber installed counts). *)
Definition exits_return w : Prop :=
  forall sub, globalSubscriber w = Some sub ->
    forall c e, fst (onSpanExit sub c e) = Normal tt.

(** [h.enter()] or [h.exit()] occurs among the steps. *)
Definition mentions (h : nat) (ops : list (Op Ext)) : Prop :=
  In (OEnter h) ops \/ In (OExit h) ops.

(** A step that is no [enter], no [exit] and installs no subscriber. *)
Definition passive (o : Op Ext) : Prop :=
  match o with
  | OSpan _ _ _ | OEmit _ _ _ | OElapse _ | OOutside _ => True
  | OSetGlobalSubscriber _ | OEnter _ | OExit _ => False
  end.

(** Strictly nested steps: every [h.enter()] is closed by the next
    [h.exit()], and what lies between is strictly nested itself and
    leaves [h] alone. *)
Inductive StrictlyNested : list (Op Ext) -> Prop :=
| SN_done : StrictlyNested []
| SN_passive o rest :
    passive o -> StrictlyNested rest -> StrictlyNested (o :: rest)
| SN_span h body rest :
    StrictlyNested body -> ~ mentions h body -> StrictlyNested rest ->
    StrictlyNested (OEnter h :: body ++ OExit h :: rest).

(** The [Span] objects in the order they were constructed carry the ids
    1, 2, 3, ..., and the counter holds the last id given out. *)
Definition ids_in_order w : Prop :=
  spanIdCounter w = Z.of_nat (length (heap w)) /\
  forall i s, heap w !! i = Some s -> sc_id (context s) = (Z.of_nat i + 1)%Z.

(** From [w] to [w'] every [Span] object keeps its [entered] flag, and
    the objects constructed on the way are not entered. *)
Definition same_flags w w' : Prop :=
  (forall h s, heap w !! h = Some s ->
     exists s', heap w' !! h = Some s' /\ entered s' = entered s) /\
  (forall h s', heap w !! h = None -> heap w' !! h = Some s' ->
     entered s' = false).

End Notions.

(** ** Notions for the further properties *)

Arguments Rejected {P} e.
Arguments Awaiting {P} h p.

Definition enabledCalls (l : list Call) : list Metadata :=
  omap (fun c => match c with CallEnabled x => Some x | _ => None end) l.

(** The span notifications of a list of calls, as a collector keeps
    them. *)
Definition spanCalls (l : list Call) : list (SpanContext * Action) :=
  omap (fun c =>
          match c with
          | CallOnSpanEnter x => Some (x, ActionEnter)
          | CallOnSpanExit x => Some (x, ActionExit)
          | _ => None
          end) l.

(** Every [onEvent] call comes right after the [enabled] call for the
    event's metadata, [prev] being the call before the list. *)
Fixpoint gated_from (prev : option Call) (l : list Call) : Prop :=
  match l with
  | [] => True
  | c :: l' =>
      match c with
      | CallOnEvent ev => prev = Some (CallEnabled (e_metadata ev))
      | _ => True
      end /\ gated_from (Some c) l'
  end.

(** The call before the end of [l], [prev] being the call before [l]. *)
Fixpoint last_call (prev : option Call) (l : list Call) : option Call :=
  match l with
  | [] => prev
  | c :: l' => last_call (Some c) l'
  end.

Section FurtherNotions.

Context {Ext : Type}.

Implicit Types (w : World Ext) (sub : Subscriber Ext).

(** The subscriber's span callbacks return, whatever they are given. *)
Definition span_quiet sub : Prop :=
  forall c e,
    fst (onSpanEnter sub c e) = Normal tt /\ fst (onSpanExit sub c e) = Normal tt.

(** The calls one step can add to the list of calls. *)
Definition emitted (o : Op Ext) (delta : list Call) : Prop :=
  match o with
  | OEnter _ => delta = [] \/ exists c, delta = [CallOnSpanEnter c]
  | OExit _ => delta = [] \/ exists c, delta = [CallOnSpanExit c]
  | OEmit _ _ _ =>
      delta = [] \/ (exists md, delta = [CallEnabled md]) \/
      exists ev, delta = [CallEnabled (e_metadata ev); CallOnEvent ev]
  | _ => delta = []
  end.

(** [c] is the context of one of the [Span] objects [hp]. *)
Definition constructed (hp : list Span) (c : SpanContext) : Prop :=
  exists j sj, hp !! j = Some sj /\ context sj = c.

(** Every context the module holds on to is the context of a constructed
    span, and a parent is the context of a span constructed earlier. *)
Definition chain_ok w : Prop :=
  (forall c, currentSpan w = Some c -> constructed (heap w) c) /\
  (forall i s c, heap w !! i = Some s -> previousSpan s = Some c ->
     constructed (heap w) c) /\
  (forall i s p, heap w !! i = Some s -> sc_parent (context s) = Some p ->
     exists j sj, j < i /\ heap w !! j = Some sj /\ context sj = p).

(** The metadata and the fields of the event that an emitter of level
    [lvl] records for [options]. *)
Definition emit_metadata (lvl : Level) (options : option Obj) : Metadata :=
  mkMetadata lvl (o_target (normalizeLogOptions options)) None None.

Definition emit_fields (options : option Obj) : JsValue :=
  let fields := o_fields (normalizeLogOptions options) in
  match fields with
  | JUndefined => JObj []
  | _ => fields
  end.

End FurtherNotions.

(** A step that neither installs another subscriber nor reaches into the
    state outside the module behind the subscriber's back. *)
Definition stays_installed {Ext} (o : Op Ext) : Prop :=
  match o with
  | OSetGlobalSubscriber _ | OOutside _ => False
  | _ => True
  end.

(** Level and message of the emitter calls among [ops] whose level is at
    least [min], in the order of the calls. *)
Definition passed {Ext} (min : Level) (ops : list (Op Ext)) : list (Level * string) :=
  omap (fun o =>
          match o with
          | OEmit lvl message _ =>
              if (level_value lvl >=? level_value min)%Z
              then Some (lvl, message) else None
          | _ => None
          end) ops.

(** ** Further worlds *)

(** A subscriber whose [onSpanEnter] throws [e] and that is otherwise
    like the collector. *)
Definition FailingEnter (e : JsValue) : Subscriber Collector :=
  {| enabled := enabled CollectorSubscriber;
     onSpanEnter := fun _ c => (Throw e, c);
     onSpanExit := onSpanExit CollectorSubscriber;
     onEvent := onEvent CollectorSubscriber |}.

(** [setGlobalSubscriber(sub); a = span("a")] at time 1000, the module
    as loaded before. *)
Definition one_span (sub : Subscriber Collector) : World Collector :=
  exec [OSetGlobalSubscriber sub; OSpan "a" None None]
    (initial (Collector_new None) 1000).

Definition ctx_1 : SpanContext :=
  mkSpanContext 1 "a" (mkMetadata INFO JUndefined None None) [] None 1000.

(** ** Strings and numbers as the console subscriber uses them *)

(** [String(n)] for an integer [n]: the decimal digits, which is what
    JavaScript prints below 10^21. *)
Definition digit (n : Z) : Ascii.ascii := Ascii.ascii_of_nat (48 + Z.to_nat n).

Fixpoint digits (fuel : nat) (n : Z) (acc : string) : string :=
  match fuel with
  | 0 => acc
  | S fuel' =>
      let acc' := String (digit (n mod 10)) acc in
      if (n <? 10)%Z then acc' else digits fuel' (n / 10) acc'
  end.

Definition String_number (n : Z) : string :=
  if (n <? 0)%Z then "-" ++ digits 21 (- n) "" else digits 21 n "".

(** The error objects of the runtime, by the name of their class (the
    message is the engine's own wording). *)
Definition RangeError : JsValue := JObj [("name", JStr "RangeError")].
Definition TypeError : JsValue := JObj [("name", JStr "TypeError")].

Fixpoint copies (n : nat) (s : string) : string :=
  match n with
  | 0 => ""
  | S n' => s ++ copies n' s
  end.

(** [s.repeat(count)]: a negative count throws a [RangeError]. *)
Definition String_repeat (s : string) (count : Z) : Completion string :=
  if (count <? 0)%Z then Throw RangeError
  else Normal (copies (Z.to_nat count) s).

(** The first [fill] characters of [cur] followed by [pad] over and
    over. *)
Fixpoint fill_from (fill : nat) (pad cur : string) : string :=
  match fill with
  | 0 => ""
  | S fill' =>
      match cur with
      | String c cur' => String c (fill_from fill' pad cur')
      | EmptyString =>
          match pad with
          | String c pad' => String c (fill_from fill' pad pad')
          | EmptyString => ""
          end
      end
  end.

(** [s.padStart(targetLength, pad)] *)
Definition String_padStart (s : string) (targetLength : nat) (pad : string) : string :=
  if Nat.leb targetLength (String.length s) then s
  else if String.eqb pad "" then s
  else fill_from (targetLength - String.length s) pad pad ++ s.

(** A value inside a template literal: [`${v}`]. *)
Fixpoint to_string (v : JsValue) : string :=
  match v with
  | JUndefined => "undefined"
  | JNull => "null"
  | JBool true => "true"
  | JBool false => "false"
  | JNum n => String_number n
  | JStr s => s
  | JArr l =>
      (fix join (l : list JsValue) : string :=
         match l with
         | [] => ""
         | x :: l' =>
             let e :=
               match x with
               | JUndefined | JNull => ""
               | _ => to_string x
               end in
             match l' with
             | [] => e
             | _ => (e ++ "," ++ join l')%string
             end
         end) l
  | JObj _ => "[object Object]"
  end.

(** [!v] is [negb (truthy v)]. *)
Definition truthy (v : JsValue) : bool :=
  match v with
  | JUndefined | JNull => false
  | JBool b => b
  | JNum n => negb (n =? 0)%Z
  | JStr s => negb (String.eqb s "")
  | JArr _ | JObj _ => true
  end.

Fixpoint indexed (i : nat) (l : list JsValue) : Obj :=
  match l with
  | [] => []
  | x :: l' => (String_number (Z.of_nat i), x) :: indexed (S i) l'
  end.

Fixpoint characters (s : string) : list JsValue :=
  match s with
  | EmptyString => []
  | String c s' => JStr (String c "") :: characters s'
  end.

(** [Object.entries(v)]: the properties of an object in the order [Obj]
    keeps them, the elements of an array or the characters of a string
    under their indices, nothing for a number or a boolean, and a
    [TypeError] for [null] and [undefined]. *)
Definition Object_entries (v : JsValue) : Completion Obj :=
  match v with
  | JUndefined | JNull => Throw TypeError
  | JBool _ | JNum _ => Normal []
  | JStr s => Normal (indexed 0 (characters s))
  | JArr l => Normal (indexed 0 l)
  | JObj o => Normal o
  end.

(** What the subscriber takes from the runtime: [JSON.stringify] of a
    value that is not [undefined] (the values of [JsValue] have no cycles
    and no [BigInt], so it returns), and [new Date(ts)] for a timestamp
    that is a valid date, in ISO form and by its parts in the local time
    zone. *)
Record Runtime : Type := mkRuntime {
  JSON_stringify : JsValue -> string;
  toISOString : Z -> string;
  getMonth : Z -> Z;
  getDate : Z -> Z;
  getHours : Z -> Z;
  getMinutes : Z -> Z;
  getSeconds : Z -> Z;
  getMilliseconds : Z -> Z
}.

(** [`${JSON.stringify(v)}`] *)
Definition json_text (rt : Runtime) (v : JsValue) : string :=
  match v with
  | JUndefined => "undefined"
  | _ => JSON_stringify rt v
  end.

(** ** [subscribers.ts]: the console subscriber *)

Module ansi.
Local Open Scope string_scope.
Definition esc : string := String (Ascii.ascii_of_nat 27) "".
Definition reset : string := esc ++ "[0m".
Definition bold : string := esc ++ "[1m".
Definition dim : string := esc ++ "[2m".
Definition italic : string := esc ++ "[3m".
Definition red : string := esc ++ "[31m".
Definition green : string := esc ++ "[32m".
Definition yellow : string := esc ++ "[33m".
Definition blue : string := esc ++ "[34m".
Definition magenta : string := esc ++ "[35m".
Definition cyan : string := esc ++ "[36m".
Definition white : string := esc ++ "[37m".
Definition brightRed : string := esc ++ "[91m".
Definition brightYellow : string := esc ++ "[93m".
Definition brightBlue : string := esc ++ "[94m".
Definition brightMagenta : string := esc ++ "[95m".
Definition brightCyan : string := esc ++ "[96m".
Definition gray : string := esc ++ "[90m".
End ansi.

(** [getLevelColor(level)]; the [default] branch is for numbers that are
    no level. *)
Definition getLevelColor (lvl : Level) : string :=
  match lvl with
  | TRACE => ansi.brightMagenta
  | DEBUG => ansi.brightBlue
  | INFO => ansi.green
  | WARN => ansi.brightYellow
  | ERROR => ansi.brightRed
  end.

(** [formatLevel(level)]; ["?????"] is for numbers that are no level. *)
Definition formatLevel (lvl : Level) : string :=
  match lvl with
  | TRACE => "TRACE"
  | DEBUG => "DEBUG"
  | INFO => " INFO"
  | WARN => " WARN"
  | ERROR => "ERROR"
  end.

Inductive TimestampFormat : Type :=
| FormatIso
| FormatDatetime
| FormatTime
| FormatTimeShort
| FormatUnix
| FormatUnixSecs
| FormatCustom (f : Z -> string).

(** [timestamp?: boolean | TimestampFormat] *)
Inductive TimestampOption : Type :=
| TimestampOff
| TimestampOn
| TimestampAs (format : TimestampFormat).

Record ConsoleSubscriberOptions : Type := mkConsoleSubscriberOptions {
  opt_minLevel : option Level;
  opt_colors : option bool;
  opt_timestamp : option TimestampOption;
  opt_targets : option bool
}.

(** The fields of a [ConsoleSubscriber]; [timestampFormat] is [None] for
    [false], and the top of [spanStack] is its last element. *)
Record Console : Type := mkConsole {
  con_minLevel : Level;
  con_colors : bool;
  con_timestampFormat : option TimestampFormat;
  con_showTargets : bool;
  spanStack : list SpanContext
}.

(** [new ConsoleSubscriber(options = {})] *)
Definition Console_new (options : option ConsoleSubscriberOptions) : Console :=
  let options := default (mkConsoleSubscriberOptions None None None None) options in
  mkConsole
    (default INFO (opt_minLevel options))
    (default true (opt_colors options))
    (match opt_timestamp options with
     | Some TimestampOff => None
     | Some TimestampOn | None => Some FormatDatetime
     | Some (TimestampAs format) => Some format
     end)
    (default true (opt_targets options))
    [].

(** What the subscriber's methods see and change: the object, the lines
    written with [console.log], and what [Date.now()] returns to the
    subscriber (the caller's steps move this clock). *)
Record Terminal : Type := mkTerminal {
  console : Console;
  out : list string;
  wall : Z
}.

Definition set_console (c : Console) (t : Terminal) : Terminal :=
  mkTerminal c (out t) (wall t).

Definition console_log (line : string) (t : Terminal) : Terminal :=
  mkTerminal (console t) (out t ++ [line])%list (wall t).

Section ConsoleSubscriber.

Variable rt : Runtime.

Local Open Scope string_scope.

(** [enabled(metadata)] *)
Definition Console_enabled (metadata : Metadata) (c : Console) : bool :=
  (level_value (level metadata) >=? level_value (con_minLevel c))%Z.

(** [formatTime(date, includeMs)], [ts] being the timestamp of [date]. *)
Definition formatTime (ts : Z) (includeMs : bool) : string :=
  let hours := String_padStart (String_number (getHours rt ts)) 2 "0" in
  let mins := String_padStart (String_number (getMinutes rt ts)) 2 "0" in
  let secs := String_padStart (String_number (getSeconds rt ts)) 2 "0" in
  if includeMs then
    let ms := String_padStart (String_number (getMilliseconds rt ts)) 3 "0" in
    hours ++ ":" ++ mins ++ ":" ++ secs ++ "." ++ ms
  else hours ++ ":" ++ mins ++ ":" ++ secs.

Definition months : list string :=
  ["Jan"; "Feb"; "Mar"; "Apr"; "May"; "Jun";
   "Jul"; "Aug"; "Sep"; "Oct"; "Nov"; "Dec"].

(** [formatDateTime(date)] *)
Definition formatDateTime (ts : Z) : string :=
  let month :=
    if (getMonth rt ts <? 0)%Z then "undefined"
    else nth (Z.to_nat (getMonth rt ts)) months "undefined" in
  let day := String_padStart (String_number (getDate rt ts)) 2 " " in
  month ++ " " ++ day ++ " " ++ formatTime ts true.

(** [formatTimestamp(ts)] *)
Definition formatTimestamp (c : Console) (ts : Z) : string :=
  match con_timestampFormat c with
  | None => ""
  | Some format =>
      let formatted :=
        match format with
        | FormatCustom f => f ts
        | FormatIso => toISOString rt ts
        | FormatTime => formatTime ts true
        | FormatTimeShort => formatTime ts false
        | FormatUnix => String_number ts
        | FormatUnixSecs => String_number (ts / 1000)
        | FormatDatetime => formatDateTime ts
        end in
      if con_colors c then ansi.gray ++ ansi.dim ++ formatted ++ ansi.reset ++ " "
      else formatted ++ " "
  end.

(** [formatTarget(target)] *)
Definition formatTarget (c : Console) (target : JsValue) : string :=
  if negb (con_showTargets c) || negb (truthy target) then ""
  else if con_colors c then
    " " ++ ansi.gray ++ ansi.italic ++ to_string target ++ ":" ++ ansi.reset
  else " " ++ to_string target ++ ":".

(** [formatFields(fields)] *)
Definition formatFields (c : Console) (fields : JsValue) : Completion string :=
  match Object_entries fields with
  | Throw e => Throw e
  | Normal [] => Normal ""
  | Normal entries =>
      let formatted :=
        String.concat " "
          (map (fun kv =>
                  let value := json_text rt (snd kv) in
                  if con_colors c then
                    ansi.italic ++ fst kv ++ ansi.reset ++ ansi.gray ++ "=" ++
                    ansi.reset ++ value
                  else fst kv ++ "=" ++ value) entries) in
      Normal (" " ++ formatted)
  end.

(** [onSpanEnter(span)] *)
Definition Console_onSpanEnter (sp : SpanContext) (t : Terminal)
    : Completion unit * Terminal :=
  let c := console t in
  let c1 :=
    mkConsole (con_minLevel c) (con_colors c) (con_timestampFormat c)
      (con_showTargets c) (spanStack c ++ [sp])%list in
  let t1 := set_console c1 t in
  if negb (Console_enabled (sc_metadata sp) c1) then (Normal tt, t1)
  else
    match String_repeat "  " (Z.of_nat (length (spanStack c1)) - 1) with
    | Throw e => (Throw e, t1)
    | Normal indent =>
        match formatFields c1 (JObj (sc_fields sp)) with
        | Throw e => (Throw e, t1)
        | Normal fields =>
            let target := formatTarget c1 (target (sc_metadata sp)) in
            if con_colors c1 then
              (Normal tt,
               console_log
                 (indent ++ ansi.cyan ++ ansi.bold ++ "->" ++ ansi.reset ++ " " ++
                  ansi.bold ++ sc_name sp ++ ansi.reset ++ target ++ fields) t1)
            else
              (Normal tt,
               console_log (indent ++ "-> " ++ sc_name sp ++ target ++ fields) t1)
        end
    end.

(** [onSpanExit(span)] *)
Definition Console_onSpanExit (sp : SpanContext) (t : Terminal)
    : Completion unit * Terminal :=
  let c := console t in
  let printed :=
    if Console_enabled (sc_metadata sp) c then
      let duration := (wall t - sc_startTime sp)%Z in
      match String_repeat "  " (Z.of_nat (length (spanStack c)) - 1) with
      | Throw e => (Throw e, t)
      | Normal indent =>
          if con_colors c then
            (Normal tt,
             console_log
               (indent ++ ansi.cyan ++ ansi.bold ++ "<-" ++ ansi.reset ++ " " ++
                ansi.bold ++ sc_name sp ++ ansi.reset ++ " " ++ ansi.gray ++ "(" ++
                String_number duration ++ "ms)" ++ ansi.reset) t)
          else
            (Normal tt,
             console_log
               (indent ++ "<- " ++ sc_name sp ++ " (" ++
                String_number duration ++ "ms)") t)
      end
    else (Normal tt, t) in
  match printed with
  | (Throw e, t1) => (Throw e, t1)
  | (Normal _, t1) =>
      (Normal tt,
       set_console
         (mkConsole (con_minLevel c) (con_colors c) (con_timestampFormat c)
            (con_showTargets c) (removelast (spanStack c))) t1)
  end.

(** [onEvent(event)] *)
Definition Console_onEvent (ev : Event) (t : Terminal)
    : Completion unit * Terminal :=
  let c := console t in
  match String_repeat "  " (Z.of_nat (length (spanStack c))) with
  | Throw e => (Throw e, t)
  | Normal indent =>
      let lvl := level (e_metadata ev) in
      let levelStr := formatLevel lvl in
      match formatFields c (e_fields ev) with
      | Throw e => (Throw e, t)
      | Normal fields =>
          let timestamp := formatTimestamp c (e_timestamp ev) in
          let target := formatTarget c (target (e_metadata ev)) in
          if con_colors c then
            let levelColor := getLevelColor lvl in
            (Normal tt,
             console_log
               (indent ++ timestamp ++ levelColor ++ ansi.bold ++ levelStr ++
                ansi.reset ++ target ++ " " ++ e_message ev ++ fields) t)
          else
            (Normal tt,
             console_log
               (indent ++ timestamp ++ levelStr ++ target ++ " " ++
                e_message ev ++ fields) t)
      end
  end.

(** The object as a subscriber. *)
Definition ConsoleSubscriber : Subscriber Terminal :=
  {| enabled := fun metadata t => (Normal (Console_enabled metadata (console t)), t);
     onSpanEnter := Console_onSpanEnter;
     onSpanExit := Console_onSpanExit;
     onEvent := Console_onEvent |}.

End ConsoleSubscriber.

(** The number of spans that are entered. *)
Definition entered_count (hp : list Span) : nat :=
  length (List.filter entered hp).

(** The indentation of nesting depth [d]. *)
Definition indentation (d : nat) : string := copies d "  ".

(** The module as loaded, then [setGlobalSubscriber(new
    ConsoleSubscriber(options))], nothing printed so far. *)
Definition consoling (rt : Runtime) (options : option ConsoleSubscriberOptions)
    (now : Z) : World Terminal :=
  snd (setGlobalSubscriber (ConsoleSubscriber rt)
         (initial (mkTerminal (Console_new options) [] now) now)).

(** A step that installs no subscriber and, when it is the caller's own
    code, leaves the subscriber object alone (time may pass and other
    code may print). *)
Definition leaves_console (o : Op Terminal) : Prop :=
  match o with
  | OSetGlobalSubscriber _ => False
  | OOutside f => forall t, console (f t) = console t
  | _ => True
  end.

(** The number of spaces a line begins with. *)
Fixpoint leading_spaces (line : string) : nat :=
  match line with
  | String c rest =>
      if Ascii.eqb c (Ascii.ascii_of_nat 32) then S (leading_spaces rest) else 0
  | EmptyString => 0
  end.

(** What [Date] promises of the parts of a valid date. *)
Definition date_parts_in_range (rt : Runtime) (ts : Z) : Prop :=
  (0 <= getMonth rt ts < 12)%Z /\ (1 <= getDate rt ts < 32)%Z /\
  (0 <= getHours rt ts < 24)%Z /\ (0 <= getMinutes rt ts < 60)%Z /\
  (0 <= getSeconds rt ts < 60)%Z /\ (0 <= getMilliseconds rt ts < 1000)%Z.

(** The console subscriber is installed and its span stack is as deep as
    there are spans entered. *)
Definition console_inv (rt : Runtime) (w : World Terminal) : Prop :=
  globalSubscriber w = Some (ConsoleSubscriber rt) /\
  length (spanStack (console (ext w))) = entered_count (heap w).

(** The subscriber object after [spanStack] has become [stack]. *)
Definition with_spanStack (stack : list SpanContext) (c : Console) : Console :=
  mkConsole (con_minLevel c) (con_colors c) (con_timestampFormat c)
    (con_showTargets c) stack.

(** ** A runtime for the concrete runs *)

(** Year, month (from 1) and day of the day [z] days after 1 January
    1970, in the Gregorian calendar. *)
Definition civil_from_days (z : Z) : Z * Z * Z :=
  let z := (z + 719468)%Z in
  let era := (z / 146097)%Z in
  let doe := (z - era * 146097)%Z in
  let yoe := ((doe - doe / 1460 + doe / 36524 - doe / 146096) / 365)%Z in
  let doy := (doe - (365 * yoe + yoe / 4 - yoe / 100))%Z in
  let mp := ((5 * doy + 2) / 153)%Z in
  let d := (doy - (153 * mp + 2) / 5 + 1)%Z in
  let m := (if (mp <? 10)%Z then mp + 3 else mp - 9)%Z in
  let y := (yoe + era * 400 + (if (m <=? 2)%Z then 1 else 0))%Z in
  (y, m, d).

Definition hex_digit (n : nat) : Ascii.ascii :=
  Ascii.ascii_of_nat (if Nat.ltb n 10 then 48 + n else 87 + n).

(** A string as JSON text. *)
Fixpoint JSON_quote_chars (s : string) : string :=
  match s with
  | EmptyString => EmptyString
  | String c rest =>
      let n := Ascii.nat_of_ascii c in
      let backslash := Ascii.ascii_of_nat 92 in
      let escaped (x : nat) := String backslash (String (Ascii.ascii_of_nat x) "") in
      ((if Nat.eqb n 34 then escaped 34
        else if Nat.eqb n 92 then escaped 92
        else if Nat.eqb n 8 then escaped 98
        else if Nat.eqb n 9 then escaped 116
        else if Nat.eqb n 10 then escaped 110
        else if Nat.eqb n 12 then escaped 102
        else if Nat.eqb n 13 then escaped 114
        else if Nat.ltb n 32 then
          String backslash
            (String (Ascii.ascii_of_nat 117)
               (String (Ascii.ascii_of_nat 48)
                  (String (Ascii.ascii_of_nat 48)
                     (String (hex_digit (n / 16))
                        (String (hex_digit (n mod 16)) "")))))
        else String c "") ++ JSON_quote_chars rest)%string
  end.

Definition JSON_quote (s : string) : string :=
  let q := String (Ascii.ascii_of_nat 34) "" in
  (q ++ JSON_quote_chars s ++ q)%string.

(** [JSON.stringify(v)] for [v] other than [undefined]. *)
Fixpoint JSON_text (v : JsValue) : string :=
  match v with
  | JUndefined | JNull => "null"
  | JBool true => "true"
  | JBool false => "false"
  | JNum n => String_number n
  | JStr s => JSON_quote s
  | JArr l =>
      ("[" ++
       (fix elements (l : list JsValue) : string :=
          match l with
          | [] => ""
          | x :: l' =>
              match l' with
              | [] => JSON_text x
              | _ => JSON_text x ++ "," ++ elements l'
              end
          end) l ++ "]")%string
  | JObj o =>
      ("{" ++
       (fix properties (first : bool) (o : list (string * JsValue)) : string :=
          match o with
          | [] => ""
          | (_, JUndefined) :: o' => properties first o'
          | (k, x) :: o' =>
              (if first then "" else ",") ++ JSON_quote k ++ ":" ++
              JSON_text x ++ properties false o'
          end) true o ++ "}")%string
  end.

(** The runtime of a process whose time zone is UTC (ISO strings for the
    years 0 to 9999). *)
Definition utc : Runtime :=
  let year ts := fst (fst (civil_from_days (ts / 86400000))) in
  let month ts := snd (fst (civil_from_days (ts / 86400000))) in
  let day ts := snd (civil_from_days (ts / 86400000)) in
  let hours ts := ((ts / 3600000) mod 24)%Z in
  let minutes ts := ((ts / 60000) mod 60)%Z in
  let seconds ts := ((ts / 1000) mod 60)%Z in
  let millis ts := (ts mod 1000)%Z in
  let pad n x := String_padStart (String_number x) n "0" in
  {| JSON_stringify := JSON_text;
     toISOString := fun ts =>
       (pad 4 (year ts) ++ "-" ++ pad 2 (month ts) ++ "-" ++ pad 2 (day ts) ++
        "T" ++ pad 2 (hours ts) ++ ":" ++ pad 2 (minutes ts) ++ ":" ++
        pad 2 (seconds ts) ++ "." ++ pad 3 (millis ts) ++ "Z")%string;
     getMonth := fun ts => (month ts - 1)%Z;
     getDate := day;
     getHours := hours;
     getMinutes := minutes;
     getSeconds := seconds;
     getMilliseconds := millis |}.

(** ** Worlds with a console *)

(** [a = span("a"); a.enter()] at time 1000 with no subscriber installed,
    a [ConsoleSubscriber] with default options having been constructed. *)
Definition entered_before : World Terminal :=
  exec [OSpan "a" None None; OEnter 0]
    (initial (mkTerminal (Console_new None) [] 1000) 1000).


(** A span of level TRACE, which the default console does not print. *)
Definition quiet_span : Op Terminal :=
  OSpan "quiet" None (Some (mkPartialMetadata (Some TRACE) JUndefined None None)).

(** ** Tactics for the concrete runs *)

(** Prove the first hypothesis of [H] with [tac] and take it off. *)
Ltac feed H tac :=
  match type of H with
  | ?P -> _ =>
      let A := fresh "A" in
      assert (A : P) by tac; specialize (H A); clear A
  end.

(** The installed subscriber is known: compute it and what it answers. *)
Ltac installed_collector :=
  let sub := fresh "sub" in
  let E := fresh "E" in
  intros sub E; vm_compute in E; inversion E; vm_compute; reflexivity.

(** Bounds on computed integers. *)
Ltac in_range :=
  repeat match goal with |- _ /\ _ => split end;
  first [apply Z.leb_le|apply Z.ltb_lt]; vm_compute; reflexivity.

(** * Properties *)

Section Properties.

Context {Ext : Type}.

Implicit Types (w : World Ext) (h : nat) (s : Span) (sub : Subscriber Ext).

(** ** Single steps *)

Lemma notify_absent {A} (method : Subscriber Ext -> Ext -> Completion A * Ext) c w :
  globalSubscriber w = None -> notify method c w = (Normal None, w).
Proof. intros H. unfold notify. now rewrite H. Qed.

Lemma notify_calls {A} (method : Subscriber Ext -> Ext -> Completion A * Ext) c w sub :
  globalSubscriber w = Some sub ->
  calls (snd (notify method c w)) = calls w ++ [c].
Proof.
  intros H. unfold notify. rewrite H.
  destruct (method sub (ext w)) as [[a|x] e]; reflexivity.
Qed.

(** What [notify] leaves alone. *)
Lemma notify_frame {A} (method : Subscriber Ext -> Ext -> Completion A * Ext) c w :
  let w' := snd (notify method c w) in
  globalSubscriber w' = globalSubscriber w /\
  spanIdCounter w' = spanIdCounter w /\
  currentSpan w' = currentSpan w /\
  heap w' = heap w /\
  clock w' = clock w /\
  clockReads w' = clockReads w.
Proof.
  unfold notify. destruct (globalSubscriber w) as [sub|] eqn:E; simpl; auto 10.
  destruct (method sub (ext w)) as [[a|x] e]; simpl; auto 10.
Qed.

Lemma enter_entered w h s :
  heap w !! h = Some s -> entered s = true -> enter h w = (Normal h, w).
Proof. intros Hh He. unfold enter. now rewrite Hh, He. Qed.

Lemma exit_not_entered w h s :
  heap w !! h = Some s -> entered s = false -> exit h w = (Normal tt, w).
Proof. intros Hh He. unfold exit. now rewrite Hh, He. Qed.

(** The state after an [enter] that takes effect, whether or not the
    subscriber's [onSpanEnter] returned. *)
Lemma enter_state w h s :
  heap w !! h = Some s -> entered s = false ->
  let w' := snd (enter h w) in
  heap w' = <[h := mkSpan (context s) (currentSpan w) true]> (heap w) /\
  currentSpan w' = Some (context s) /\
  globalSubscriber w' = globalSubscriber w /\
  spanIdCounter w' = spanIdCounter w /\
  clock w' = clock w /\
  clockReads w' = clockReads w /\
  calls w' =
    calls w ++ match globalSubscriber w with
               | Some _ => [CallOnSpanEnter (context s)]
               | None => []
               end.
Proof.
  intros Hh He. unfold enter. rewrite Hh, He. unfold bind, notify, ret. simpl.
  destruct (globalSubscriber w) as [sub|] eqn:E; simpl.
  - destruct (onSpanEnter sub (context s) (ext w)) as [[a|x] e]; simpl;
      rewrite ?E; auto 10.
  - rewrite app_nil_r, ?E. auto 10.
Qed.

(** The state after an [exit] that takes effect and returns. *)
Lemma exit_state w h s :
  heap w !! h = Some s -> entered s = true ->
  (forall sub, globalSubscriber w = Some sub ->
     fst (onSpanExit sub (context s) (ext w)) = Normal tt) ->
  exists w',
    exit h w = (Normal tt, w') /\
    heap w' = <[h := mkSpan (context s) (previousSpan s) false]> (heap w) /\
    currentSpan w' = previousSpan s /\
    globalSubscriber w' = globalSubscriber w /\
    spanIdCounter w' = spanIdCounter w /\
    clock w' = clock w /\
    clockReads w' = clockReads w /\
    calls w' =
      calls w ++ match globalSubscriber w with
                 | Some _ => [CallOnSpanExit (context s)]
                 | None => []
                 end.
Proof.
  intros Hh He Hsub. unfold exit. rewrite Hh, He. unfold bind, notify. simpl.
  destruct (globalSubscriber w) as [sub|] eqn:E; simpl.
  - specialize (Hsub sub eq_refl).
    destruct (onSpanExit sub (context s) (ext w)) as [[[]|x] e]; simpl in *;
      [|discriminate].
    eexists. split; [reflexivity|]. simpl. rewrite ?E. auto 10.
  - eexists. split; [reflexivity|]. simpl. rewrite app_nil_r, ?E. auto 10.
Qed.

(** An [exit] whose notification throws changes nothing but the outside
    state and the list of calls: the span stays entered. *)
Lemma exit_throws w h s sub x :
  heap w !! h = Some s -> entered s = true ->
  globalSubscriber w = Some sub ->
  fst (onSpanExit sub (context s) (ext w)) = Throw x ->
  fst (exit h w) = Throw x /\
  heap (snd (exit h w)) = heap w /\
  currentSpan (snd (exit h w)) = currentSpan w /\
  spanIdCounter (snd (exit h w)) = spanIdCounter w /\
  calls (snd (exit h w)) = calls w ++ [CallOnSpanExit (context s)].
Proof.
  intros Hh He Hs Hx. unfold exit. rewrite Hh, He. unfold bind, notify.
  rewrite Hs. destruct (onSpanExit sub (context s) (ext w)) as [[[]|y] e];
    simpl in *; [discriminate|]. inversion Hx. auto.
Qed.

Lemma Span_new_state w name fields metadata :
  Span_new name fields metadata w =
  (Normal (length (heap w)),
   mkWorld (globalSubscriber w) (spanIdCounter w + 1) (currentSpan w)
     (heap w ++ [mkSpan (new_context w name fields metadata) None false])
     (ext w) (clock w) (S (clockReads w)) (calls w)).
Proof. reflexivity. Qed.

(** What [recordEvent] leaves alone. *)
Lemma recordEvent_frame lvl message fields metadata w :
  let w' := snd (recordEvent lvl message fields metadata w) in
  globalSubscriber w' = globalSubscriber w /\
  spanIdCounter w' = spanIdCounter w /\
  currentSpan w' = currentSpan w /\
  heap w' = heap w /\
  clock w' = clock w.
Proof.
  unfold recordEvent, bind, notify, Date_now, ret.
  destruct (globalSubscriber w) as [sub|] eqn:E; simpl; rewrite ?E; auto.
  destruct (enabled sub _ (ext w)) as [[[|]|x] e]; simpl; rewrite ?E; auto.
  destruct (onEvent sub _ e) as [[[]|x] e']; simpl; rewrite ?E; auto.
Qed.

(** ** What one step of a caller does to the module's state *)

Lemma call_effect o w : Effect w o.
Proof.
  destruct o as [sub|name fields metadata|h|h|lvl message options|now|f].
  - now apply Effect_none.
  - now eapply Effect_span.
  - destruct (heap w !! h) as [s|] eqn:Hh.
    + destruct (entered s) eqn:He.
      * apply Effect_none; simpl; now rewrite (enter_entered w h s).
      * destruct (enter_state w h s Hh He) as (H1 & H2 & _ & H4 & _).
        now apply (Effect_enter w (OEnter h) h s).
    + apply Effect_none; simpl; unfold enter; now rewrite Hh.
  - destruct (heap w !! h) as [s|] eqn:Hh.
    + destruct (entered s) eqn:He.
      * unfold call.
        destruct (globalSubscriber w) as [sub|] eqn:Hs.
        -- destruct (fst (onSpanExit sub (context s) (ext w))) as [[]|x] eqn:Hx.
           ++ destruct (exit_state w h s Hh He) as (w' & Hw & H1 & H2 & _ & H4 & _).
              { intros sub' E. rewrite Hs in E. now inversion E; subst. }
              apply (Effect_exit w (OExit h) h s); auto; simpl; now rewrite Hw.
           ++ destruct (exit_throws w h s sub x Hh He Hs Hx) as (_ & H1 & H2 & H3 & _).
              now apply Effect_none.
        -- destruct (exit_state w h s Hh He) as (w' & Hw & H1 & H2 & _ & H4 & _).
           { intros sub' E. rewrite Hs in E. discriminate. }
           apply (Effect_exit w (OExit h) h s); auto; simpl; now rewrite Hw.
      * apply Effect_none; simpl; now rewrite (exit_not_entered w h s).
    + apply Effect_none; simpl; unfold exit; now rewrite Hh.
  - destruct (recordEvent_frame lvl message
                (o_fields (normalizeLogOptions options))
                (Some (mkPartialMetadata None
                         (o_target (normalizeLogOptions options)) None None)) w)
      as (_ & H2 & H3 & H4 & _).
    now apply Effect_none.
  - now apply Effect_none.
  - now apply Effect_none.
Qed.

(** Only [setGlobalSubscriber] changes the subscriber. *)
Lemma call_subscriber o w :
  (forall sub, o <> OSetGlobalSubscriber sub) ->
  globalSubscriber (call o w) = globalSubscriber w.
Proof.
  intros Hne.
  destruct o as [sub|name fields metadata|h|h|lvl message options|now|f]; simpl.
  - now destruct (Hne sub).
  - reflexivity.
  - unfold enter. destruct (heap w !! h) as [s|]; [|reflexivity].
    destruct (entered s); [reflexivity|]. unfold bind, ret.
    match goal with |- context [notify ?m ?c ?x] =>
      pose proof (notify_frame m c x) as (H & _);
      destruct (notify m c x) as [[?|?] ?] end; exact H.
  - unfold exit. destruct (heap w !! h) as [s|]; [|reflexivity].
    destruct (entered s); [|reflexivity]. unfold bind.
    match goal with |- context [notify ?m ?c ?x] =>
      pose proof (notify_frame m c x) as (H & _);
      destruct (notify m c x) as [[?|?] ?] end; exact H.
  - apply recordEvent_frame.
  - reflexivity.
  - reflexivity.
Qed.

(** ** What a step does to one [Span] object *)

(** A [Span] object keeps its handle and its context for good. *)
Lemma call_context o w h s :
  heap w !! h = Some s ->
  exists s', heap (call o w) !! h = Some s' /\ context s' = context s.
Proof.
  intros Hh. pose proof (lookup_lt_Some _ _ _ Hh) as Hlt.
  destruct (call_effect o w) as [H _ _|n f m _ H _ _|h' s0 _ Hs0 _ H _ _|h' s0 _ Hs0 _ H _ _];
    rewrite H.
  - eauto.
  - exists s. split; [|reflexivity]. rewrite lookup_app_l; assumption.
  - destruct (decide (h' = h)) as [->|Hne].
    + rewrite list_lookup_insert_eq by assumption. eexists. split; [reflexivity|].
      simpl. congruence.
    + rewrite list_lookup_insert_ne by assumption. eauto.
  - destruct (decide (h' = h)) as [->|Hne].
    + rewrite list_lookup_insert_eq by assumption. eexists. split; [reflexivity|].
      simpl. congruence.
    + rewrite list_lookup_insert_ne by assumption. eauto.
Qed.

Lemma exec_context ops w h s :
  heap w !! h = Some s ->
  exists s', heap (exec ops w) !! h = Some s' /\ context s' = context s.
Proof.
  revert w s. induction ops as [|o ops IH]; intros w s Hh; simpl.
  - eauto.
  - destruct (call_context o w h s Hh) as (s1 & H1 & E1).
    destruct (IH _ _ H1) as (s2 & H2 & E2).
    exists s2. split; [assumption|congruence].
Qed.

(** A step that is neither [h.enter()] nor [h.exit()] leaves the object
    of [h] as it is. *)
Lemma call_other o w h s :
  heap w !! h = Some s -> o <> OEnter h -> o <> OExit h ->
  heap (call o w) !! h = Some s.
Proof.
  intros Hh Hen Hex. pose proof (lookup_lt_Some _ _ _ Hh) as Hlt.
  destruct (call_effect o w) as [H _ _|n f m _ H _ _|h' s0 E Hs0 _ H _ _|h' s0 E Hs0 _ H _ _];
    rewrite H.
  - assumption.
  - rewrite lookup_app_l; assumption.
  - rewrite list_lookup_insert_ne; [assumption|]. intros ->. now apply Hen.
  - rewrite list_lookup_insert_ne; [assumption|]. intros ->. now apply Hex.
Qed.

Lemma enter_or_not (o : Op Ext) h : o = OEnter h \/ o <> OEnter h.
Proof.
  destruct o as [| |h'| | | |]; try (right; discriminate).
  destruct (decide (h' = h)) as [->|Hne]; [now left|right; congruence].
Qed.

Lemma exit_or_not (o : Op Ext) h : o = OExit h \/ o <> OExit h.
Proof.
  destruct o as [| | |h'| | |]; try (right; discriminate).
  destruct (decide (h' = h)) as [->|Hne]; [now left|right; congruence].
Qed.

(** While a span is entered, only its own [exit] changes its object. *)
Lemma call_entered o w h s :
  heap w !! h = Some s -> entered s = true -> o <> OExit h ->
  heap (call o w) !! h = Some s.
Proof.
  intros Hh He Hex. destruct (enter_or_not o h) as [->|Hen].
  - simpl. now rewrite (enter_entered w h s).
  - now apply call_other.
Qed.

Lemma exec_app (a b : list (Op Ext)) w : exec (a ++ b) w = exec b (exec a w).
Proof. unfold exec. apply fold_left_app. Qed.

Lemma exec_entered ops w h s :
  heap w !! h = Some s -> entered s = true -> ~ In (OExit h) ops ->
  heap (exec ops w) !! h = Some s.
Proof.
  revert w. induction ops as [|o ops IH]; intros w Hh He Hn; simpl.
  - assumption.
  - apply IH; [|assumption|intros Hin; apply Hn; now right].
    apply call_entered; [assumption..|]. intros ->. apply Hn. now left.
Qed.

Lemma exec_unmentioned ops w h s :
  heap w !! h = Some s -> ~ mentions h ops -> heap (exec ops w) !! h = Some s.
Proof.
  revert w. induction ops as [|o ops IH]; intros w Hh Hn; simpl.
  - assumption.
  - apply IH.
    + apply call_other; [assumption| |]; intros ->; apply Hn;
        [left|right]; now left.
    + intros [Hin|Hin]; apply Hn; [left|right]; now right.
Qed.

(** ** Strictly nested steps *)

Lemma same_flags_refl w : same_flags w w.
Proof. split; [eauto|]. intros h s' H1 H2. congruence. Qed.

Lemma same_flags_trans w1 w2 w3 :
  same_flags w1 w2 -> same_flags w2 w3 -> same_flags w1 w3.
Proof.
  intros [A1 B1] [A2 B2]. split.
  - intros h s Hh. destruct (A1 h s Hh) as (s2 & H2 & E2).
    destruct (A2 h s2 H2) as (s3 & H3 & E3). exists s3. split; congruence.
  - intros h s3 Hn H3. destruct (heap w2 !! h) as [s2|] eqn:H2.
    + destruct (A2 h s2 H2) as (s3' & H3' & E3).
      rewrite H3 in H3'. inversion H3'; subst. rewrite E3. eauto.
    + eauto.
Qed.

Lemma passive_step o w :
  passive o ->
  currentSpan (call o w) = currentSpan w /\
  globalSubscriber (call o w) = globalSubscriber w /\
  same_flags w (call o w).
Proof.
  intros Hp. split; [|split].
  - destruct (call_effect o w) as [_ _ H|n f m _ _ _ H|h' s0 E _ _ _ _ _|h' s0 E _ _ _ _ _];
      subst; simpl in Hp; tauto.
  - apply call_subscriber. intros sub ->. exact Hp.
  - destruct (call_effect o w) as [H _ _|n f m _ H _ _|h' s0 E _ _ _ _ _|h' s0 E _ _ _ _ _];
      subst; simpl in Hp; try tauto; unfold same_flags; rewrite H.
    + apply same_flags_refl.
    + split.
      * intros h s Hh. exists s. split; [|reflexivity].
        rewrite lookup_app_l; [assumption|]. eapply lookup_lt_Some; eauto.
      * intros h s' Hn Hs'.
        apply lookup_ge_None in Hn. rewrite lookup_app_r in Hs' by assumption.
        destruct (h - length (heap w)) as [|k]; simpl in Hs'; [|discriminate].
        now inversion Hs'.
Qed.

Lemma nested_balanced ops :
  StrictlyNested ops ->
  forall w,
    exits_return w ->
    (forall h s, mentions h ops -> heap w !! h = Some s -> entered s = false) ->
    currentSpan (exec ops w) = currentSpan w /\
    globalSubscriber (exec ops w) = globalSubscriber w /\
    same_flags w (exec ops w).
Proof.
  induction 1 as [|o rest Hp _ IH|h body rest _ IHb Hnm _ IHr]; intros w Hret Hfresh.
  - simpl. split; [reflexivity|]. split; [reflexivity|]. apply same_flags_refl.
  - simpl. destruct (passive_step o w Hp) as (Hc & Hs & Hf).
    destruct (IH (call o w)) as (Hc' & Hs' & Hf').
    + unfold exits_return. rewrite Hs. exact Hret.
    + intros h s Hm Hh. destruct (heap w !! h) as [s0|] eqn:E.
      * destruct Hf as [Hf _]. destruct (Hf h s0 E) as (s1 & H1 & E1).
        rewrite Hh in H1. inversion H1; subst. rewrite E1.
        apply (Hfresh h s0); [|assumption].
        destruct Hm as [Hm|Hm]; [left|right]; now right.
      * destruct Hf as [_ Hf]. now apply (Hf h s).
    + split; [congruence|]. split; [congruence|].
      eapply same_flags_trans; eassumption.
  - simpl. rewrite exec_app. simpl.
    assert (Hmb : forall h', mentions h' body ->
              mentions h' (OEnter h :: body ++ OExit h :: rest)).
    { intros h' [Hm|Hm]; [left|right]; right; apply in_or_app; now left. }
    assert (Hmr : forall h', mentions h' rest ->
              mentions h' (OEnter h :: body ++ OExit h :: rest)).
    { intros h' [Hm|Hm]; [left|right]; right; apply in_or_app; right; now right. }
    assert (Hne : forall h', mentions h' body -> h' <> h).
    { intros h' Hm ->. now apply Hnm. }
    destruct (heap w !! h) as [s|] eqn:Hh.
    + (* the span exists: [enter] and [exit] both take effect *)
      assert (He : entered s = false).
      { apply (Hfresh h s); [left; now left|assumption]. }
      destruct (enter_state w h s Hh He) as (H1 & C1 & S1 & _).
      set (w1 := snd (enter h w)) in *.
      pose proof (lookup_lt_Some _ _ _ Hh) as Hlt.
      assert (Hh1 : heap w1 !! h = Some (mkSpan (context s) (currentSpan w) true)).
      { rewrite H1. now apply list_lookup_insert_eq. }
      destruct (IHb w1) as (C2 & S2 & F2).
      { unfold exits_return. rewrite S1. exact Hret. }
      { intros h' s' Hm Hs'. rewrite H1 in Hs'.
        rewrite list_lookup_insert_ne in Hs' by (intros E; symmetry in E; now apply (Hne h')).
        apply (Hfresh h' s'); auto. }
      set (w2 := exec body w1) in *.
      pose proof (exec_unmentioned body w1 h _ Hh1 Hnm) as Hh2. fold w2 in Hh2.
      destruct (exit_state w2 h _ Hh2 eq_refl) as (w3 & Hx & H3 & C3 & S3 & _).
      { intros sub Hsub. apply Hret. congruence. }
      simpl in H3, C3. rewrite Hx. simpl.
      pose proof (lookup_lt_Some _ _ _ Hh2) as Hlt2.
      assert (F13 : same_flags w w3).
      { split.
        - intros k sk Hk. destruct (decide (k = h)) as [->|Hkh].
          + rewrite H3, list_lookup_insert_eq by assumption.
            eexists. split; [reflexivity|]. simpl. congruence.
          + rewrite H3, list_lookup_insert_ne by congruence.
            destruct F2 as [F2 _]. apply F2. rewrite H1.
            rewrite list_lookup_insert_ne by congruence. assumption.
        - intros k sk Hk Hk3. assert (Hkh : k <> h) by congruence.
          rewrite H3, list_lookup_insert_ne in Hk3 by congruence.
          destruct F2 as [_ F2]. apply (F2 k sk); [|assumption].
          rewrite H1, list_lookup_insert_ne by congruence. assumption. }
      destruct (IHr w3) as (C4 & S4 & F4).
      { unfold exits_return. rewrite S3, S2, S1. exact Hret. }
      { intros k sk Hm Hk. destruct (heap w !! k) as [s0|] eqn:E0.
        - destruct F13 as [F13 _]. destruct (F13 k s0 E0) as (s3 & E3 & Ee).
          rewrite Hk in E3. inversion E3; subst. rewrite Ee.
          apply (Hfresh k s0); auto.
        - destruct F13 as [_ F13]. now apply (F13 k sk). }
      split; [congruence|]. split; [congruence|].
      eapply same_flags_trans; eassumption.
    + (* the handle was never allocated: [enter] does nothing *)
      assert (Hw1 : enter h w = (Normal h, w)).
      { unfold enter. now rewrite Hh. }
      rewrite Hw1. simpl.
      destruct (IHb w Hret) as (C2 & S2 & F2).
      { intros h' s' Hm Hs'. apply (Hfresh h' s'); auto. }
      set (w2 := exec body w) in *.
      assert (Hx : exit h w2 = (Normal tt, w2)).
      { destruct (heap w2 !! h) as [s2|] eqn:Hh2.
        - apply (exit_not_entered w2 h s2 Hh2).
          destruct F2 as [_ F2]. now apply (F2 h s2).
        - unfold exit. now rewrite Hh2. }
      rewrite Hx. simpl.
      destruct (IHr w2) as (C4 & S4 & F4).
      { unfold exits_return. rewrite S2. exact Hret. }
      { intros k sk Hm Hk. destruct (heap w !! k) as [s0|] eqn:E0.
        - destruct F2 as [F2 _]. destruct (F2 k s0 E0) as (s3 & E3 & Ee).
          rewrite Hk in E3. inversion E3; subst. rewrite Ee.
          apply (Hfresh k s0); auto.
        - destruct F2 as [_ F2]. now apply (F2 k sk). }
      split; [congruence|]. split; [congruence|].
      eapply same_flags_trans; eassumption.
Qed.

(** ** Current-span state *)

(** C1.  Take any span that is not entered, enter it, and let the caller
    do whatever it likes short of exiting that span (enter and exit other
    spans in any order, construct spans, log, swap the subscriber): when
    the span's [exit()] then returns, the current span is again what it
    was just before the [enter()] that took effect; and [exit()] does
    return unless the subscriber's [onSpanExit] throws.  In particular
    every strictly nested run of [enter]/[exit] steps on spans that were
    not entered before (enter A, enter B, exit B, exit A, to any depth and
    with spans constructed or events logged in between) ends with the
    current span it started with. *)
Theorem exit_restores_current_span :
  (forall w h s ops,
     heap w !! h = Some s -> entered s = false -> ~ In (OExit h) ops ->
     let w2 := exec ops (snd (enter h w)) in
     (forall w', exit h w2 = (Normal tt, w') -> currentSpan w' = currentSpan w) /\
     ((forall sub, globalSubscriber w2 = Some sub ->
         fst (onSpanExit sub (context s) (ext w2)) = Normal tt) ->
      exists w', exit h w2 = (Normal tt, w'))) /\
  (forall w ops,
     StrictlyNested ops -> exits_return w ->
     (forall h s, mentions h ops -> heap w !! h = Some s -> entered s = false) ->
     currentSpan (exec ops w) = currentSpan w).
Proof.
  split.
  - intros w h s ops Hh He Hn w2.
    destruct (enter_state w h s Hh He) as (H1 & _).
    assert (Hh1 : heap (snd (enter h w)) !! h
                  = Some (mkSpan (context s) (currentSpan w) true)).
    { rewrite H1. apply list_lookup_insert_eq. eapply lookup_lt_Some; eauto. }
    pose proof (exec_entered ops _ h _ Hh1 eq_refl Hn) as Hh2. fold w2 in Hh2.
    split.
    + intros w' Hx.
      destruct (globalSubscriber w2) as [sub|] eqn:Hs.
      * destruct (fst (onSpanExit sub (context s) (ext w2))) as [[]|x] eqn:Hr.
        -- destruct (exit_state w2 h _ Hh2 eq_refl) as (w3 & Hx3 & _ & C3 & _).
           { intros sub' E. rewrite Hs in E. now inversion E; subst. }
           rewrite Hx in Hx3. inversion Hx3; subst. exact C3.
        -- destruct (exit_throws w2 h _ sub x Hh2 eq_refl Hs Hr) as (Ht & _).
           rewrite Hx in Ht. discriminate.
      * destruct (exit_state w2 h _ Hh2 eq_refl) as (w3 & Hx3 & _ & C3 & _).
        { intros sub' E. rewrite Hs in E. discriminate. }
        rewrite Hx in Hx3. inversion Hx3; subst. exact C3.
    + intros Hret.
      destruct (exit_state w2 h _ Hh2 eq_refl Hret) as (w3 & Hx3 & _).
      eauto.
  - intros w ops Hsn Hret Hfresh.
    now destruct (nested_balanced ops Hsn w Hret Hfresh).
Qed.

(** ** Identifiers *)

Lemma ids_in_order_call o w : ids_in_order w -> ids_in_order (call o w).
Proof.
  intros [Hc Hi]. unfold ids_in_order.
  destruct (call_effect o w) as [H C _|n f m _ H C _|h' s0 _ Hs0 _ H C _|h' s0 _ Hs0 _ H C _];
    rewrite H, C.
  - auto.
  - split.
    + rewrite length_app. simpl. lia.
    + intros i s Hs. destruct (decide (i < length (heap w))) as [Hlt|Hge].
      * rewrite lookup_app_l in Hs by assumption. auto.
      * rewrite lookup_app_r in Hs by lia.
        destruct (i - length (heap w)) as [|k] eqn:E; simpl in Hs; [|discriminate].
        inversion Hs; subst. simpl. lia.
  - split.
    + now rewrite length_insert.
    + intros i s Hs. destruct (decide (h' = i)) as [->|Hne].
      * rewrite list_lookup_insert_eq in Hs by (eapply lookup_lt_Some; eauto).
        inversion Hs; subst. simpl. auto.
      * rewrite list_lookup_insert_ne in Hs by assumption. auto.
  - split.
    + now rewrite length_insert.
    + intros i s Hs. destruct (decide (h' = i)) as [->|Hne].
      * rewrite list_lookup_insert_eq in Hs by (eapply lookup_lt_Some; eauto).
        inversion Hs; subst. simpl. auto.
      * rewrite list_lookup_insert_ne in Hs by assumption. auto.
Qed.

Lemma ids_in_order_exec ops w : ids_in_order w -> ids_in_order (exec ops w).
Proof.
  revert w. induction ops as [|o ops IH]; intros w Hw; simpl; [assumption|].
  apply IH. now apply ids_in_order_call.
Qed.

(** C4.  Start from the module as loaded and let the caller take any
    steps.  The spans constructed so far carry, in the order of their
    construction, the ids 1, 2, 3, ...: the first has id 1 and each later
    one the id of its predecessor plus one; ids grow strictly with the
    order of construction and no two spans share one; and the next
    construction takes the id after the last one given out. *)
Theorem span_ids_count_up (e : Ext) (now : Z) (ops : list (Op Ext)) :
  let w := exec ops (initial e now) in
  (forall i s, heap w !! i = Some s -> sc_id (context s) = (Z.of_nat i + 1)%Z) /\
  (forall i j si sj,
     heap w !! i = Some si -> heap w !! j = Some sj -> i < j ->
     (sc_id (context si) < sc_id (context sj))%Z) /\
  (forall i j si sj,
     heap w !! i = Some si -> heap w !! j = Some sj ->
     sc_id (context si) = sc_id (context sj) -> i = j) /\
  (forall name fields metadata,
     let r := Span_new name fields metadata w in
     fst r = Normal (length (heap w)) /\
     (sc_id <$> getContext (length (heap w)) (snd r))
       = Some (Z.of_nat (length (heap w)) + 1)%Z /\
     spanIdCounter (snd r) = (spanIdCounter w + 1)%Z).
Proof.
  intros w.
  assert (Hw : ids_in_order w).
  { apply ids_in_order_exec. split; [reflexivity|]. intros i s Hs. discriminate. }
  destruct Hw as [Hc Hi].
  split; [exact Hi|]. split; [|split].
  - intros i j si sj Hsi Hsj Hlt. rewrite (Hi _ _ Hsi), (Hi _ _ Hsj). lia.
  - intros i j si sj Hsi Hsj E. rewrite (Hi _ _ Hsi), (Hi _ _ Hsj) in E. lia.
  - intros name fields metadata r. subst r. rewrite Span_new_state. simpl.
    split; [reflexivity|]. split; [|reflexivity].
    unfold getContext. simpl.
    rewrite lookup_app_r by lia. rewrite Nat.sub_diag. simpl.
    now rewrite Hc.
Qed.

(** ** Parents *)

(** C6.  [span(name, fields, metadata)] returns a new handle whose
    context has as parent the current span of the moment of construction;
    the construction calls no subscriber method and changes neither the
    current span, nor the subscriber, nor anything outside the module.
    Whatever the caller does afterwards (entering the span under another
    current span included), the span's context, parent and all, is the
    one it was constructed with.  Consequently a span constructed while
    an outer span is entered and current has the outer span's context as
    parent. *)
Theorem span_parent_is_construction_time_current w name fields metadata :
  let r := span name fields metadata w in
  let h := length (heap w) in
  fst r = Normal h /\
  (exists sp, heap (snd r) !! h = Some sp /\
     sc_parent (context sp) = currentSpan w /\
     entered sp = false /\
     forall ops, exists sp',
       heap (exec ops (snd r)) !! h = Some sp' /\ context sp' = context sp) /\
  currentSpan (snd r) = currentSpan w /\
  calls (snd r) = calls w /\
  globalSubscriber (snd r) = globalSubscriber w /\
  ext (snd r) = ext w /\
  (forall ho so,
     heap w !! ho = Some so -> entered so = false ->
     let w1 := snd (enter ho w) in
     exists inner,
       heap (snd (span name fields metadata w1)) !! length (heap w1) = Some inner /\
       sc_parent (context inner) = Some (context so)).
Proof.
  intros r h. subst r h. unfold span. rewrite Span_new_state. simpl.
  split; [reflexivity|]. split; [|repeat split].
  - eexists. split; [|split; [|split]].
    + rewrite lookup_app_r by lia. rewrite Nat.sub_diag. reflexivity.
    + reflexivity.
    + reflexivity.
    + intros ops. apply exec_context.
      simpl. rewrite lookup_app_r by lia. now rewrite Nat.sub_diag.
  - intros ho so Hh He.
    destruct (enter_state w ho so Hh He) as (_ & C1 & _).
    eexists. split.
    + rewrite lookup_app_r by lia. rewrite Nat.sub_diag. reflexivity.
    + simpl. exact C1.
Qed.

(** ** Idempotence *)

(** One round of [enter(), exit()] on a span that is not entered. *)
Lemma round_state w h s sub :
  heap w !! h = Some s -> entered s = false ->
  globalSubscriber w = Some sub ->
  (forall e, fst (onSpanExit sub (context s) e) = Normal tt) ->
  let w2 := exec [OEnter h; OExit h] w in
  heap w2 !! h = Some (mkSpan (context s) (currentSpan w) false) /\
  globalSubscriber w2 = Some sub /\
  currentSpan w2 = currentSpan w /\
  calls w2 =
    calls w ++ [CallOnSpanEnter (context s); CallOnSpanExit (context s)].
Proof.
  intros Hh He Hs Hret. simpl.
  destruct (enter_state w h s Hh He) as (H1 & C1 & S1 & _ & _ & _ & L1).
  rewrite Hs in L1, S1.
  pose proof (lookup_lt_Some _ _ _ Hh) as Hlt.
  assert (Hh1 : heap (snd (enter h w)) !! h
                = Some (mkSpan (context s) (currentSpan w) true)).
  { rewrite H1. now apply list_lookup_insert_eq. }
  destruct (exit_state _ h _ Hh1 eq_refl) as (w2 & Hx & H2 & C2 & S2 & _ & _ & _ & L2).
  { intros sub' E. rewrite S1 in E. inversion E; subst. apply Hret. }
  rewrite Hx. simpl in *. rewrite S1 in L2, S2. repeat split.
  - rewrite H2. apply list_lookup_insert_eq. rewrite H1, length_insert. exact Hlt.
  - exact S2.
  - exact C2.
  - rewrite L2, L1, <- app_assoc. reflexivity.
Qed.

(** C3.  Take a span that is not entered while a subscriber is installed
    whose [onSpanExit] returns.  Exiting it as it is does nothing.
    [enter()] makes one call of [onSpanEnter], and a second [enter()]
    right after changes nothing and returns the handle; [exit()] then
    makes one call of [onSpanExit], and a second [exit()] right after
    changes nothing.  The span can be used over and over: [n] rounds of
    [enter(), exit()] give [n] pairs of notifications. *)
Theorem enter_and_exit_are_idempotent w h s sub :
  heap w !! h = Some s -> entered s = false ->
  globalSubscriber w = Some sub ->
  (forall e, fst (onSpanExit sub (context s) e) = Normal tt) ->
  let c := context s in
  let w1 := snd (enter h w) in
  let w2 := snd (exit h w1) in
  exit h w = (Normal tt, w) /\
  calls w1 = calls w ++ [CallOnSpanEnter c] /\
  enter h w1 = (Normal h, w1) /\
  calls w2 = calls w1 ++ [CallOnSpanExit c] /\
  exit h w2 = (Normal tt, w2) /\
  forall n,
    calls (exec (rounds h n) w) =
    calls w ++ concat (repeat [CallOnSpanEnter c; CallOnSpanExit c] n).
Proof.
  intros Hh He Hs Hret c w1 w2.
  destruct (enter_state w h s Hh He) as (H1 & C1 & S1 & _ & _ & _ & L1).
  fold w1 in H1, C1, S1, L1. rewrite Hs in L1, S1.
  pose proof (lookup_lt_Some _ _ _ Hh) as Hlt.
  assert (Hh1 : heap w1 !! h = Some (mkSpan c (currentSpan w) true)).
  { rewrite H1. now apply list_lookup_insert_eq. }
  destruct (exit_state w1 h _ Hh1 eq_refl) as (w2' & Hx & H2 & _ & _ & _ & _ & _ & L2).
  { intros sub' E. rewrite S1 in E. inversion E; subst. apply Hret. }
  assert (Ew2 : w2 = w2') by (unfold w2; now rewrite Hx). subst w2'.
  rewrite S1 in L2. simpl in H2, L2.
  assert (Hh2 : heap w2 !! h = Some (mkSpan c (currentSpan w) false)).
  { rewrite H2. apply list_lookup_insert_eq. rewrite H1, length_insert. exact Hlt. }
  split; [now apply (exit_not_entered w h s)|].
  split; [exact L1|].
  split; [now apply (enter_entered w1 h _ Hh1)|].
  split; [exact L2|].
  split; [now apply (exit_not_entered w2 h _ Hh2)|].
  intros n. clear - Hh He Hs Hret. subst c.
  revert w s Hh He Hs Hret.
  induction n as [|n IH]; intros w s Hh He Hs Hret.
  - simpl. now rewrite app_nil_r.
  - unfold rounds. simpl repeat. simpl concat. fold (@rounds Ext h n).
    change (@OEnter Ext h :: OExit h :: rounds h n)
      with ([@OEnter Ext h; OExit h] ++ rounds h n).
    rewrite exec_app.
    destruct (round_state w h s sub Hh He Hs Hret) as (Hh' & Hs' & _ & L').
    rewrite (IH _ _ Hh' eq_refl Hs' Hret). simpl context.
    rewrite L', <- app_assoc. reflexivity.
Qed.

(** ** No subscriber *)

(** C8.  With no subscriber installed, [enter()] and [exit()] make their
    state transition and nothing else (no subscriber call, the outside
    state untouched), and recording an event, through [recordEvent] or
    any emitter, leaves the world exactly as it was: no call, no clock
    read, no event. *)
Theorem absent_subscriber_is_silent w :
  globalSubscriber w = None ->
  (forall h s, heap w !! h = Some s -> entered s = false ->
     enter h w =
     (Normal h,
      set_currentSpan (Some (context s))
        (set_heap (<[h := mkSpan (context s) (currentSpan w) true]> (heap w)) w)) /\
     calls (snd (enter h w)) = calls w) /\
  (forall h s, heap w !! h = Some s -> entered s = true ->
     exit h w =
     (Normal tt,
      set_heap (<[h := mkSpan (context s) (previousSpan s) false]> (heap w))
        (set_currentSpan (previousSpan s) w)) /\
     calls (snd (exit h w)) = calls w) /\
  (forall lvl message fields metadata,
     recordEvent lvl message fields metadata w = (Normal tt, w)) /\
  (forall lvl message options, emit lvl message options w = (Normal tt, w)).
Proof.
  intros Hs. split; [|split; [|split]].
  - intros h s Hh He. unfold enter. rewrite Hh, He.
    unfold bind, notify, ret. simpl. now rewrite Hs.
  - intros h s Hh He. unfold exit. rewrite Hh, He.
    unfold bind, notify. now rewrite Hs.
  - intros lvl message fields metadata.
    unfold recordEvent, bind, notify, ret. now rewrite Hs.
  - intros lvl message options.
    unfold emit, recordEvent, bind, notify, ret. now rewrite Hs.
Qed.

(** ** The filter *)

(** C5.  [recordEvent] asks the subscriber's [enabled] once.  When it
    answers [false], nothing else happens: the world afterwards differs
    only by that one call (and by what [enabled] itself did outside), so
    the clock was not read and [onEvent] was not called.  [onEvent] is
    called, once and with the event built from the arguments, the current
    span and the clock, when a subscriber is installed and its [enabled]
    returns [true]; in every other case there is no [onEvent] call and no
    clock read. *)
Theorem disabled_event_is_dropped w lvl message fields metadata :
  let md := default no_metadata metadata in
  let fullMetadata := mkMetadata lvl (p_target md) (p_file md) (p_line md) in
  let r := recordEvent lvl message fields metadata w in
  (forall sub e,
     globalSubscriber w = Some sub ->
     enabled sub fullMetadata (ext w) = (Normal false, e) ->
     r = (Normal tt,
          mkWorld (globalSubscriber w) (spanIdCounter w) (currentSpan w)
            (heap w) e (clock w) (clockReads w)
            (calls w ++ [CallEnabled fullMetadata]))) /\
  (forall sub,
     globalSubscriber w = Some sub ->
     fst (enabled sub fullMetadata (ext w)) = Normal true ->
     eventCalls (calls (snd r)) =
       eventCalls (calls w) ++
       [mkEvent fullMetadata message
          (match fields with JUndefined => JObj [] | v => v end)
          (currentSpan w) (clock w)] /\
     clockReads (snd r) = S (clockReads w)) /\
  (~ (exists sub,
        globalSubscriber w = Some sub /\
        fst (enabled sub fullMetadata (ext w)) = Normal true) ->
   eventCalls (calls (snd r)) = eventCalls (calls w) /\
   clockReads (snd r) = clockReads w).
Proof.
  intros md fullMetadata r. subst r. unfold recordEvent. fold md. fold fullMetadata.
  unfold bind, notify, Date_now, ret. split; [|split].
  - intros sub e Hs He. rewrite Hs, He. reflexivity.
  - intros sub Hs He. rewrite Hs.
    destruct (enabled sub fullMetadata (ext w)) as [[[|]|x] e]; simpl in He;
      try discriminate. simpl.
    destruct (onEvent sub _ e) as [[[]|x] e']; simpl;
      unfold eventCalls; rewrite !omap_app; simpl; rewrite app_nil_r; auto.
  - intros Hno. destruct (globalSubscriber w) as [sub|] eqn:Hs; simpl; [|auto].
    destruct (enabled sub fullMetadata (ext w)) as [[[|]|x] e] eqn:He; simpl.
    + destruct Hno. exists sub. rewrite He. auto.
    + unfold eventCalls. rewrite omap_app. simpl. rewrite app_nil_r. auto.
    + unfold eventCalls. rewrite omap_app. simpl. rewrite app_nil_r. auto.
Qed.

(** ** Defaults and options *)

(** C10.  A span constructed with no level in its metadata (no metadata
    at all, or metadata that leave [level] out) has level [INFO], whose
    value is 2: through [new Span], through [span], and for the span that
    a call of a function wrapped by [instrument] or [instrumentAsync]
    constructs before it runs the function. *)
Theorem span_level_defaults_to_INFO w name fields metadata :
  p_level (default no_metadata metadata) = None ->
  let h := length (heap w) in
  let level_of (w' : World Ext) := level <$> (sc_metadata <$> getContext h w') in
  level_value INFO = 2%Z /\
  level_of (snd (Span_new name fields metadata w)) = Some INFO /\
  level_of (snd (span name fields metadata w)) = Some INFO /\
  (forall A (fn : list JsValue -> M Ext A) extraFields args,
     exists w0,
       instrument name fn extraFields args w = run h (fn args) w0 /\
       level_of w0 = Some INFO) /\
  (forall P (fn : list JsValue -> M Ext P) extraFields args,
     exists w0,
       instrumentAsync name fn extraFields args w = runAsync_start h (fn args) w0 /\
       level_of w0 = Some INFO).
Proof.
  intros Hl h level_of. subst level_of h. unfold span, getContext.
  split; [reflexivity|].
  rewrite Span_new_state. simpl. rewrite lookup_app_r by lia.
  rewrite Nat.sub_diag. simpl. rewrite Hl.
  split; [reflexivity|]. split; [reflexivity|]. split.
  - intros A fn extraFields args. unfold instrument, span, bind.
    rewrite Span_new_state. eexists. split; [reflexivity|]. simpl.
    rewrite lookup_app_r by lia. now rewrite Nat.sub_diag.
  - intros P fn extraFields args. unfold instrumentAsync, span.
    rewrite Span_new_state. eexists. split; [reflexivity|]. simpl.
    rewrite lookup_app_r by lia. now rewrite Nat.sub_diag.
Qed.

(** C7.  Each of the five emitters decides by the presence of keys, not
    by what they hold: an options object with a key "target" or a key
    "fields" is read as [{target?, fields?}] (its "target" property, of
    whatever type, becomes the metadata's target and its "fields"
    property the fields); any other object is the field mapping itself,
    with no target.  So [info(message, {target: x})] with an enabled
    subscriber makes one event, with target [x] and the empty [{}] as
    fields.  With no options at all there is no target and the fields
    are [{}]. *)
Theorem options_are_told_apart_by_key_presence w lvl message (o : Obj) :
  (obj_has "target" o = true \/ obj_has "fields" o = true ->
   emitter lvl message (Some o) w =
   recordEvent lvl message (obj_get "fields" o)
     (Some (mkPartialMetadata None (obj_get "target" o) None None)) w) /\
  (obj_has "target" o = false -> obj_has "fields" o = false ->
   emitter lvl message (Some o) w =
   recordEvent lvl message (JObj o)
     (Some (mkPartialMetadata None JUndefined None None)) w) /\
  (forall x sub,
     globalSubscriber w = Some sub ->
     fst (enabled sub (mkMetadata INFO (JStr x) None None) (ext w)) = Normal true ->
     eventCalls (calls (snd (info message (Some [("target", JStr x)]) w))) =
     eventCalls (calls w) ++
     [mkEvent (mkMetadata INFO (JStr x) None None) message (JObj [])
        (currentSpan w) (clock w)]) /\
  emitter lvl message None w =
  recordEvent lvl message (JObj [])
    (Some (mkPartialMetadata None JUndefined None None)) w.
Proof.
  assert (E : emitter lvl = @emit Ext lvl) by (destruct lvl; reflexivity).
  rewrite E. split; [|split; [|split]]; [| | |reflexivity].
  - intros Hk. unfold emit, normalizeLogOptions.
    destruct Hk as [Hk|Hk]; rewrite Hk; [reflexivity|].
    now rewrite orb_true_r.
  - intros Ht Hf. unfold emit, normalizeLogOptions. now rewrite Ht, Hf.
  - intros x sub Hs He. unfold info, emit, normalizeLogOptions. simpl.
    unfold recordEvent, bind, notify, Date_now, ret. simpl. rewrite Hs.
    destruct (enabled sub _ (ext w)) as [[[|]|y] e]; simpl in He;
      try discriminate. simpl.
    destruct (onEvent sub _ e) as [[[]|y] e']; simpl;
      unfold eventCalls; rewrite !omap_app; simpl; now rewrite app_nil_r.
Qed.

(** ** Scoped execution *)

(** [run] when [enter] returns, the span is entered once [fn] is over,
    and the subscriber's [onSpanExit] returns: the completion of [fn] is
    the completion of [run], after the [exit]. *)
Lemma run_completes {A} (fn : M Ext A) w h s2 :
  fst (enter h w) = Normal h ->
  let w1 := snd (enter h w) in
  let w2 := snd (fn w1) in
  heap w2 !! h = Some s2 -> entered s2 = true ->
  (forall sub2, globalSubscriber w2 = Some sub2 ->
     fst (onSpanExit sub2 (context s2) (ext w2)) = Normal tt) ->
  exists w3,
    exit h w2 = (Normal tt, w3) /\
    run h fn w = (fst (fn w1), w3).
Proof.
  intros Hen w1 w2 Hh He Hret.
  destruct (exit_state w2 h s2 Hh He Hret) as (w3 & Hx & _).
  exists w3. split; [exact Hx|].
  unfold run, bind, try_finally. subst w2 w1.
  destruct (enter h w) as [[a|x] w1]; simpl in *; [|discriminate].
  destruct (fn w1) as [r w2]; simpl in *. now rewrite Hx.
Qed.

(** C2.  Let [enter()] return, and let the span be entered when [fn] is
    over (as it is unless [fn] itself exits it), the subscriber's
    [onSpanExit] returning.  Then [run(fn)] runs [fn] in the world
    [enter()] left and completes as [fn] did: it returns the value [fn]
    returned, or throws the error [fn] threw.  Either way the world [run]
    hands back is the one in which the span has been exited, once: the
    installed subscriber got exactly one [onSpanExit] call after the
    calls of [fn], the current span is the one saved at [enter], the span
    is not entered, and one more [exit()] would do nothing.  When the
    span was not entered before and [fn] left its object alone, [fn] ran
    with the span as current span and the current span after [run] is the
    one from before [run]. *)
Theorem run_exits_exactly_once {A} (fn : M Ext A) w h s2 :
  fst (enter h w) = Normal h ->
  let w1 := snd (enter h w) in
  let w2 := snd (fn w1) in
  heap w2 !! h = Some s2 -> entered s2 = true ->
  (forall sub2, globalSubscriber w2 = Some sub2 ->
     fst (onSpanExit sub2 (context s2) (ext w2)) = Normal tt) ->
  let w3 := snd (run h fn w) in
  (forall v, fst (fn w1) = Normal v -> fst (run h fn w) = Normal v) /\
  (forall x, fst (fn w1) = Throw x -> fst (run h fn w) = Throw x) /\
  (forall sub2, globalSubscriber w2 = Some sub2 ->
     calls w3 = calls w2 ++ [CallOnSpanExit (context s2)] /\
     exitCalls (calls w3) = exitCalls (calls w2) ++ [context s2]) /\
  heap w3 !! h = Some (mkSpan (context s2) (previousSpan s2) false) /\
  currentSpan w3 = previousSpan s2 /\
  exit h w3 = (Normal tt, w3) /\
  (forall s, heap w !! h = Some s -> entered s = false ->
     heap w2 !! h = heap w1 !! h ->
     currentSpan w1 = Some (context s) /\
     context s2 = context s /\
     currentSpan w3 = currentSpan w).
Proof.
  intros Hen w1 w2 Hh He Hret w3.
  destruct (run_completes fn w h s2 Hen Hh He Hret) as (w3' & Hx & Hrun).
  destruct (exit_state w2 h s2 Hh He Hret) as (w3'' & Hx' & H3 & C3 & _ & _ & _ & _ & L3).
  assert (E33 : w3'' = w3').
  { change (exit h w2 = (Normal tt, w3')) in Hx. congruence. }
  subst w3''. clear Hx'.
  assert (E3 : w3 = w3') by (unfold w3; now rewrite Hrun).
  assert (Hh3 : heap w3' !! h = Some (mkSpan (context s2) (previousSpan s2) false)).
  { rewrite H3. apply list_lookup_insert_eq. eapply lookup_lt_Some; eauto. }
  assert (Hfr : forall s, heap w !! h = Some s -> entered s = false ->
            heap w2 !! h = heap w1 !! h ->
            currentSpan w1 = Some (context s) /\
            s2 = mkSpan (context s) (currentSpan w) true).
  { intros s Hw He0 Hsame.
    destruct (enter_state w h s Hw He0) as (H1 & C1 & _). fold w1 in H1, C1.
    rewrite H1, list_lookup_insert_eq in Hsame by (eapply lookup_lt_Some; eauto).
    split; [exact C1|congruence]. }
  rewrite E3, Hrun. simpl.
  split; [auto|]. split; [auto|]. split.
  { intros sub2 Hs. rewrite Hs in L3. split; [exact L3|].
    rewrite L3. unfold exitCalls. rewrite omap_app. reflexivity. }
  split; [exact Hh3|]. split; [exact C3|]. split.
  { now apply (exit_not_entered w3' h _ Hh3). }
  intros s Hw He0 Hsame. destruct (Hfr s Hw He0 Hsame) as [C1 ->].
  rewrite C3. auto.
Qed.

(** When the subscriber's [onSpanExit] throws, [finally] lets its error
    through in place of the completion of [fn], and the span stays
    entered and current. *)
Lemma run_exit_throws {A} (fn : M Ext A) w h s2 sub2 y :
  fst (enter h w) = Normal h ->
  let w1 := snd (enter h w) in
  let w2 := snd (fn w1) in
  heap w2 !! h = Some s2 -> entered s2 = true ->
  globalSubscriber w2 = Some sub2 ->
  fst (onSpanExit sub2 (context s2) (ext w2)) = Throw y ->
  fst (run h fn w) = Throw y /\
  heap (snd (run h fn w)) !! h = Some s2 /\
  currentSpan (snd (run h fn w)) = currentSpan w2.
Proof.
  intros Hen w1 w2 Hh He Hs Hy.
  destruct (exit_throws w2 h s2 sub2 y Hh He Hs Hy) as (Ht & H1 & C1 & _).
  unfold run, bind, try_finally. subst w2 w1.
  destruct (enter h w) as [[a|x] w1]; simpl in *; [|discriminate].
  destruct (fn w1) as [r w2]; simpl in *.
  destruct (exit h w2) as [[[]|z] w3]; simpl in *; [discriminate|].
  inversion Ht; subst. rewrite H1. auto.
Qed.

(** ** Objects *)

Lemma obj_get_set_eq key v o : obj_get key (obj_set key v o) = v.
Proof.
  induction o as [|[k v'] o IH]; simpl.
  - now rewrite String.eqb_refl.
  - destruct (String.eqb k key) eqn:E; simpl; now rewrite E.
Qed.

Lemma obj_get_set_ne key key' v o :
  key' <> key -> obj_get key' (obj_set key v o) = obj_get key' o.
Proof.
  intros Hne. induction o as [|[k v'] o IH]; simpl.
  - destruct (String.eqb key key') eqn:E; [|reflexivity].
    apply String.eqb_eq in E. congruence.
  - destruct (String.eqb k key) eqn:E; simpl.
    + apply String.eqb_eq in E. subst k.
      destruct (String.eqb key key') eqn:E'; [|reflexivity].
      apply String.eqb_eq in E'. congruence.
    + destruct (String.eqb k key'); [reflexivity|exact IH].
Qed.

(** [enter] and [exit] leave the counter alone. *)
Lemma enter_counter w h : spanIdCounter (snd (enter h w)) = spanIdCounter w.
Proof.
  change (snd (enter h w)) with (call (OEnter h) w).
  destruct (call_effect (OEnter h) w) as [_ C _|n f m E _ _ _|h' s0 _ _ _ _ C _|h' s0 E _ _ _ _ _];
    try discriminate; exact C.
Qed.

Lemma exit_counter w h : spanIdCounter (snd (exit h w)) = spanIdCounter w.
Proof.
  change (snd (exit h w)) with (call (OExit h) w).
  destruct (call_effect (OExit h) w) as [_ C _|n f m E _ _ _|h' s0 E _ _ _ _ _|h' s0 _ _ _ _ C _];
    try discriminate; exact C.
Qed.

Lemma enter_returns w h s :
  heap w !! h = Some s -> entered s = false ->
  (forall sub, globalSubscriber w = Some sub ->
     fst (onSpanEnter sub (context s) (ext w)) = Normal tt) ->
  fst (enter h w) = Normal h.
Proof.
  intros Hh He Hret. unfold enter. rewrite Hh, He.
  unfold bind, notify, ret. simpl.
  destruct (globalSubscriber w) as [sub|] eqn:Hs; [|reflexivity].
  specialize (Hret sub eq_refl).
  destruct (onSpanEnter sub (context s) (ext w)) as [[[]|x] e]; simpl in *;
    [reflexivity|discriminate].
Qed.

(** ** Instrumented functions *)

(** C9, as the code has it.  A call of the function that
    [instrument(name, fn, extraFields)] returned constructs a span of its
    own: a new handle, with the next id, whose fields are [extraFields]
    with the property "args" set to the list of the call's arguments
    ([[41]] for a call on 41).  The call is [run] of [fn] on that span.
    When the subscriber's [onSpanEnter] and [onSpanExit] return (or no
    subscriber is installed) and [fn] leaves the new span's object alone,
    the call completes as [fn] did, with the span exited and the current
    span as before the call.  When [fn] constructs no span itself, the
    span of the next call has the id of this call's span plus one. *)
Theorem instrument_wraps_each_call_in_a_new_span {A} name
    (fn : list JsValue -> M Ext A) extraFields args w :
  let fields := obj_set "args" (JArr args) (spread extraFields) in
  let h := length (heap w) in
  let c := new_context w name (Some fields) None in
  let w0 := snd (span name (Some fields) None w) in
  let w1 := snd (enter h w0) in
  let w2 := snd (fn args w1) in
  let r := instrument name fn extraFields args w in
  (forall sub, globalSubscriber w = Some sub ->
     fst (onSpanEnter sub c (ext w)) = Normal tt) ->
  heap w2 !! h = heap w1 !! h ->
  (forall sub2, globalSubscriber w2 = Some sub2 ->
     fst (onSpanExit sub2 c (ext w2)) = Normal tt) ->
  (heap w !! h = None /\ heap w0 = heap w ++ [mkSpan c None false]) /\
  (sc_name c = name /\ sc_fields c = fields /\
   obj_get "args" fields = JArr args /\
   (forall k, k <> "args" -> obj_get k fields = obj_get k (spread extraFields)) /\
   (args = [JNum 41] -> obj_get "args" fields = JArr [JNum 41])) /\
  r = run h (fn args) w0 /\
  (fst r = fst (fn args w1) /\
   heap (snd r) !! h = Some (mkSpan c (currentSpan w) false) /\
   currentSpan (snd r) = currentSpan w) /\
  sc_id c = (spanIdCounter w + 1)%Z /\
  (spanIdCounter w2 = spanIdCounter w1 ->
   forall args',
     sc_id (new_context (snd r) name
              (Some (obj_set "args" (JArr args') (spread extraFields))) None)
     = (sc_id c + 1)%Z).
Proof.
  intros fields h c w0 w1 w2 r Hen Hsame Hex.
  assert (Hr : r = run h (fn args) w0) by reflexivity.
  assert (Hw0 : heap w0 = heap w ++ [mkSpan c None false]) by reflexivity.
  assert (Hh0 : heap w0 !! h = Some (mkSpan c None false)).
  { rewrite Hw0, lookup_app_r by (unfold h; lia). unfold h.
    now rewrite Nat.sub_diag. }
  assert (Hen0 : fst (enter h w0) = Normal h).
  { apply (enter_returns w0 h _ Hh0 eq_refl). exact Hen. }
  destruct (enter_state w0 h _ Hh0 eq_refl) as (H1 & _). fold w1 in H1.
  assert (Hh1 : heap w1 !! h = Some (mkSpan c (currentSpan w) true)).
  { rewrite H1. apply list_lookup_insert_eq. eapply lookup_lt_Some; eauto. }
  assert (Hh2 : heap w2 !! h = Some (mkSpan c (currentSpan w) true)) by congruence.
  destruct (run_completes (fn args) w0 h _ Hen0 Hh2 eq_refl Hex) as (w3 & Hx & Hrun).
  destruct (exit_state w2 h _ Hh2 eq_refl Hex) as (w3' & Hx' & H3 & C3 & _ & N3 & _).
  assert (E3 : w3' = w3).
  { change (exit h w2 = (Normal tt, w3)) in Hx. congruence. }
  subst w3'. simpl in H3, C3.
  rewrite Hr, Hrun. simpl.
  split; [split; [|exact Hw0]|].
  { apply lookup_ge_None. unfold h. lia. }
  split.
  { split; [reflexivity|]. split; [reflexivity|].
    split; [apply obj_get_set_eq|].
    split; [intros k Hk; now apply obj_get_set_ne|].
    intros ->. apply obj_get_set_eq. }
  split; [reflexivity|]. split.
  { split; [reflexivity|]. split; [|exact C3].
    rewrite H3. apply list_lookup_insert_eq. eapply lookup_lt_Some; eauto. }
  split; [reflexivity|].
  intros Hno args'. simpl. rewrite N3, Hno. unfold w1.
  rewrite enter_counter. reflexivity.
Qed.

End Properties.

(** * Further properties *)

Section Further.

Context {Ext : Type}.

Implicit Types (w : World Ext) (h : nat) (s : Span) (sub : Subscriber Ext).

(** ** Exits out of order *)

(** X1.  Enter [a], enter [b], then exit them in the same order instead
    of the reverse one.  After [a.exit()] the current span is the one
    from before [a.enter()] although [b] is still entered; after
    [b.exit()] the current span is the context of [a], a span that is no
    longer entered. *)
Theorem exits_out_of_order_leave_a_stale_current_span w a b sa sb :
  a <> b ->
  heap w !! a = Some sa -> heap w !! b = Some sb ->
  entered sa = false -> entered sb = false ->
  exits_return w ->
  let w2 := exec [OEnter a; OEnter b] w in
  let w3 := call (OExit a) w2 in
  let w4 := call (OExit b) w3 in
  currentSpan w2 = Some (context sb) /\
  (currentSpan w3 = currentSpan w /\
   heap w3 !! b = Some (mkSpan (context sb) (Some (context sa)) true)) /\
  (currentSpan w4 = Some (context sa) /\
   heap w4 !! a = Some (mkSpan (context sa) (currentSpan w) false) /\
   heap w4 !! b = Some (mkSpan (context sb) (Some (context sa)) false)).
Proof.
  intros Hab Ha Hb Ea Eb Hret w2 w3 w4. subst w4 w3 w2. simpl.
  pose proof (lookup_lt_Some _ _ _ Ha) as La.
  pose proof (lookup_lt_Some _ _ _ Hb) as Lb.
  destruct (enter_state w a sa Ha Ea) as (H1 & C1 & S1 & _).
  set (w1 := snd (enter a w)) in *.
  assert (Hb1 : heap w1 !! b = Some sb).
  { rewrite H1, list_lookup_insert_ne by assumption. exact Hb. }
  destruct (enter_state w1 b sb Hb1 Eb) as (H2 & C2 & S2 & _).
  set (w2 := snd (enter b w1)) in *.
  assert (Ha2 : heap w2 !! a = Some (mkSpan (context sa) (currentSpan w) true)).
  { rewrite H2, list_lookup_insert_ne by congruence.
    rewrite H1. now apply list_lookup_insert_eq. }
  assert (Hb2 : heap w2 !! b = Some (mkSpan (context sb) (Some (context sa)) true)).
  { rewrite H2, C1. apply list_lookup_insert_eq. rewrite H1, length_insert. exact Lb. }
  destruct (exit_state w2 a _ Ha2 eq_refl) as (w3 & Hx3 & H3 & C3 & S3 & _).
  { intros sub E. apply Hret. congruence. }
  rewrite Hx3. simpl in H3, C3 |- *.
  assert (Hb3 : heap w3 !! b = Some (mkSpan (context sb) (Some (context sa)) true)).
  { rewrite H3, list_lookup_insert_ne by assumption. exact Hb2. }
  destruct (exit_state w3 b _ Hb3 eq_refl) as (w4 & Hx4 & H4 & C4 & _).
  { intros sub E. apply Hret. congruence. }
  rewrite Hx4. simpl in H4, C4 |- *.
  split; [exact C2|]. split; [split; [exact C3|exact Hb3]|].
  split; [exact C4|]. split.
  - rewrite H4, list_lookup_insert_ne by congruence.
    rewrite H3. apply list_lookup_insert_eq.
    rewrite H2, length_insert, H1, length_insert. exact La.
  - rewrite H4. apply list_lookup_insert_eq.
    rewrite H3, length_insert, H2, length_insert, H1, length_insert. exact Lb.
Qed.

(** ** Subscribers that throw *)

(** X2.  While the subscriber's [onSpanExit] throws, [exit()] cannot
    exit: every call throws the subscriber's error after notifying it
    once more, and the span stays entered with the current span as it
    was. *)
Theorem failing_onSpanExit_keeps_the_span_entered w h s sub x n :
  heap w !! h = Some s -> entered s = true ->
  globalSubscriber w = Some sub ->
  (forall e, fst (onSpanExit sub (context s) e) = Throw x) ->
  let w' := exec (repeat (OExit h) n) w in
  heap w' !! h = Some s /\
  currentSpan w' = currentSpan w /\
  exitCalls (calls w') = exitCalls (calls w) ++ repeat (context s) n /\
  fst (exit h w') = Throw x.
Proof.
  intros Hh He Hs Hx. revert w Hh Hs.
  induction n as [|n IH]; intros w Hh Hs; simpl.
  - rewrite app_nil_r. repeat split; auto.
    now destruct (exit_throws w h s sub x Hh He Hs (Hx _)).
  - destruct (exit_throws w h s sub x Hh He Hs (Hx _)) as (_ & H1 & C1 & _ & L1).
    assert (Hs1 : globalSubscriber (snd (exit h w)) = Some sub).
    { change (snd (exit h w)) with (call (OExit h) w).
      rewrite call_subscriber; [exact Hs|discriminate]. }
    destruct (IH (snd (exit h w))) as (A & B & C & D).
    + rewrite H1. exact Hh.
    + exact Hs1.
    + split; [exact A|]. split; [congruence|]. split; [|exact D].
      rewrite C, L1. unfold exitCalls. rewrite omap_app. simpl.
      now rewrite <- app_assoc.
Qed.

(** X3.  When the subscriber's [onSpanEnter] throws, [enter()] throws
    after it has made the span entered and current, and [run(fn)] ends
    there: [fn] is not called and nothing exits the span. *)
Theorem failing_onSpanEnter_leaves_the_span_entered {A} (fn : M Ext A)
    w h s sub x :
  heap w !! h = Some s -> entered s = false ->
  globalSubscriber w = Some sub ->
  fst (onSpanEnter sub (context s) (ext w)) = Throw x ->
  let w1 := snd (enter h w) in
  fst (enter h w) = Throw x /\
  run h fn w = (Throw x, w1) /\
  heap w1 !! h = Some (mkSpan (context s) (currentSpan w) true) /\
  currentSpan w1 = Some (context s) /\
  calls w1 = calls w ++ [CallOnSpanEnter (context s)].
Proof.
  intros Hh He Hs Hx w1.
  destruct (enter_state w h s Hh He) as (H1 & C1 & _ & _ & _ & _ & L1).
  fold w1 in H1, C1, L1. rewrite Hs in L1.
  assert (Hen : fst (enter h w) = Throw x).
  { unfold enter. rewrite Hh, He. unfold bind, notify, ret. simpl. rewrite Hs.
    destruct (onSpanEnter sub (context s) (ext w)) as [[[]|y] e]; simpl in *;
      [discriminate|]. now inversion Hx. }
  split; [exact Hen|]. split; [|split; [|split; [exact C1|exact L1]]].
  - unfold run, bind. subst w1.
    destruct (enter h w) as [[a|y] w1']; simpl in *; [discriminate|].
    now inversion Hen.
  - rewrite H1. apply list_lookup_insert_eq. eapply lookup_lt_Some; eauto.
Qed.

(** X4.  When the subscriber's [onSpanExit] throws while [run] exits,
    its error is what [run] throws, whether [fn] returned or threw; the
    span stays entered and current, and running the same span again does
    not enter it anew. *)
Theorem failing_onSpanExit_replaces_the_outcome_of_run {A} (fn : M Ext A)
    w h s sub y :
  heap w !! h = Some s -> entered s = false ->
  globalSubscriber w = Some sub ->
  fst (onSpanEnter sub (context s) (ext w)) = Normal tt ->
  let w1 := snd (enter h w) in
  let w2 := snd (fn w1) in
  heap w2 !! h = heap w1 !! h ->
  currentSpan w2 = currentSpan w1 ->
  globalSubscriber w2 = Some sub ->
  fst (onSpanExit sub (context s) (ext w2)) = Throw y ->
  let w3 := snd (run h fn w) in
  fst (run h fn w) = Throw y /\
  heap w3 !! h = Some (mkSpan (context s) (currentSpan w) true) /\
  currentSpan w3 = Some (context s) /\
  enter h w3 = (Normal h, w3).
Proof.
  intros Hh He Hs Hen w1 w2 Hsame Hcur Hs2 Hy w3.
  destruct (enter_state w h s Hh He) as (H1 & C1 & _). fold w1 in H1, C1.
  assert (Hh1 : heap w1 !! h = Some (mkSpan (context s) (currentSpan w) true)).
  { rewrite H1. apply list_lookup_insert_eq. eapply lookup_lt_Some; eauto. }
  assert (Hh2 : heap w2 !! h = Some (mkSpan (context s) (currentSpan w) true))
    by congruence.
  assert (Hr : fst (enter h w) = Normal h).
  { apply (enter_returns w h s Hh He). intros sub' E.
    rewrite Hs in E. now inversion E; subst. }
  destruct (run_exit_throws fn w h _ sub y Hr Hh2 eq_refl Hs2 Hy) as (R & H3 & C3).
  fold w3 in H3, C3. change (currentSpan w3 = currentSpan w2) in C3.
  split; [exact R|]. split; [exact H3|].
  split; [rewrite C3, Hcur; exact C1|]. now apply (enter_entered w3 h _ H3).
Qed.

(** ** Asynchronous scoped execution *)

(** X5.  [runAsync(fn)] on a span that is not entered, [fn] returning a
    promise: the synchronous part leaves the call waiting with the span
    entered.  The span stays entered whatever the caller does meanwhile
    short of exiting it, and when the promise has settled the second part
    exits the span once, restores the current span from before
    [runAsync], and passes the settlement on, fulfilled or rejected. *)
Theorem runAsync_exits_once_the_promise_has_settled {P A} (fn : M Ext P)
    w h s p (settled : Completion A) ops :
  heap w !! h = Some s -> entered s = false ->
  (forall sub, globalSubscriber w = Some sub ->
     fst (onSpanEnter sub (context s) (ext w)) = Normal tt) ->
  let w1 := snd (enter h w) in
  let w2 := snd (fn w1) in
  fst (fn w1) = Normal p ->
  heap w2 !! h = heap w1 !! h ->
  ~ In (OExit h) ops ->
  let w3 := exec ops w2 in
  (forall sub, globalSubscriber w3 = Some sub ->
     fst (onSpanExit sub (context s) (ext w3)) = Normal tt) ->
  runAsync_start h fn w = (Awaiting h p, w2) /\
  heap w3 !! h = Some (mkSpan (context s) (currentSpan w) true) /\
  exists w4,
    runAsync_resume h settled w3 = (settled, w4) /\
    currentSpan w4 = currentSpan w /\
    heap w4 !! h = Some (mkSpan (context s) (currentSpan w) false) /\
    (forall sub, globalSubscriber w3 = Some sub ->
       calls w4 = calls w3 ++ [CallOnSpanExit (context s)]).
Proof.
  intros Hh He Hen w1 w2 Hp Hsame Hno w3 Hex.
  destruct (enter_state w h s Hh He) as (H1 & _). fold w1 in H1.
  assert (Hh1 : heap w1 !! h = Some (mkSpan (context s) (currentSpan w) true)).
  { rewrite H1. apply list_lookup_insert_eq. eapply lookup_lt_Some; eauto. }
  assert (Hh2 : heap w2 !! h = Some (mkSpan (context s) (currentSpan w) true))
    by congruence.
  pose proof (exec_entered ops w2 h _ Hh2 eq_refl Hno) as Hh3. fold w3 in Hh3.
  pose proof (enter_returns w h s Hh He Hen) as Hr.
  split; [|split; [exact Hh3|]].
  - unfold runAsync_start. subst w2 w1.
    destruct (enter h w) as [[a|x] w1]; simpl in *; [|discriminate].
    destruct (fn w1) as [[q|x] w2]; simpl in *; [|discriminate].
    now inversion Hp.
  - destruct (exit_state w3 h _ Hh3 eq_refl Hex) as (w4 & Hx & H4 & C4 & _ & _ & _ & _ & L4).
    exists w4. simpl in H4, C4, L4. split; [|split; [exact C4|split]].
    + unfold runAsync_resume, try_finally. now rewrite Hx.
    + rewrite H4. apply list_lookup_insert_eq. eapply lookup_lt_Some; eauto.
    + intros sub E. now rewrite E in L4.
Qed.

(** X6.  When [fn] throws before it returns a promise, [runAsync] exits
    the span at once and its promise is rejected with the error of [fn];
    nothing is thrown at the caller. *)
Theorem runAsync_rejects_when_fn_throws {P} (fn : M Ext P) w h s x :
  heap w !! h = Some s -> entered s = false ->
  (forall sub, globalSubscriber w = Some sub ->
     fst (onSpanEnter sub (context s) (ext w)) = Normal tt) ->
  let w1 := snd (enter h w) in
  let w2 := snd (fn w1) in
  fst (fn w1) = Throw x ->
  heap w2 !! h = heap w1 !! h ->
  (forall sub, globalSubscriber w2 = Some sub ->
     fst (onSpanExit sub (context s) (ext w2)) = Normal tt) ->
  let r := runAsync_start h fn w in
  fst r = Rejected x /\
  currentSpan (snd r) = currentSpan w /\
  heap (snd r) !! h = Some (mkSpan (context s) (currentSpan w) false) /\
  (forall sub, globalSubscriber w2 = Some sub ->
     calls (snd r) = calls w2 ++ [CallOnSpanExit (context s)]).
Proof.
  intros Hh He Hen w1 w2 Hx Hsame Hex r.
  destruct (enter_state w h s Hh He) as (H1 & _). fold w1 in H1.
  assert (Hh1 : heap w1 !! h = Some (mkSpan (context s) (currentSpan w) true)).
  { rewrite H1. apply list_lookup_insert_eq. eapply lookup_lt_Some; eauto. }
  assert (Hh2 : heap w2 !! h = Some (mkSpan (context s) (currentSpan w) true))
    by congruence.
  pose proof (enter_returns w h s Hh He Hen) as Hr.
  destruct (exit_state w2 h _ Hh2 eq_refl Hex) as (w4 & Hx4 & H4 & C4 & _ & _ & _ & _ & L4).
  simpl in H4, C4, L4.
  assert (Er : r = (Rejected x, w4)).
  { unfold r, runAsync_start. subst w2 w1.
    destruct (enter h w) as [[a|y] w1]; simpl in *; [|discriminate].
    destruct (fn w1) as [[q|y] w2]; simpl in *; [discriminate|].
    rewrite Hx4. now inversion Hx. }
  rewrite Er. simpl. split; [reflexivity|]. split; [exact C4|]. split.
  - rewrite H4. apply list_lookup_insert_eq. eapply lookup_lt_Some; eauto.
  - intros sub E. now rewrite E in L4.
Qed.

(** ** Events and the current span *)

(** An emitter with a subscriber that lets the event through. *)
Lemma emit_state w sub lvl message options :
  globalSubscriber w = Some sub ->
  fst (enabled sub (emit_metadata lvl options) (ext w)) = Normal true ->
  let ev :=
    mkEvent (emit_metadata lvl options) message (emit_fields options)
      (currentSpan w) (clock w) in
  let w' := snd (emit lvl message options w) in
  calls w' = calls w ++ [CallEnabled (emit_metadata lvl options); CallOnEvent ev] /\
  fst (emit lvl message options w) =
    fst (onEvent sub ev (snd (enabled sub (emit_metadata lvl options) (ext w)))) /\
  heap w' = heap w /\
  currentSpan w' = currentSpan w /\
  globalSubscriber w' = globalSubscriber w.
Proof.
  intros Hs He ev w'. subst w' ev.
  unfold emit, recordEvent, emit_metadata, emit_fields in *.
  unfold bind, notify, Date_now, ret. simpl. rewrite Hs.
  destruct (enabled sub _ (ext w)) as [[[|]|x] e]; simpl in He; try discriminate.
  simpl.
  destruct (onEvent sub _ e) as [[[]|x] e']; simpl; rewrite <- app_assoc;
    rewrite ?Hs; auto.
Qed.

(** X7.  An event recorded inside [run] belongs to the span: with a
    subscriber that lets it through and whose callbacks return,
    [s.run(() => emit(message, options))] calls, in this order,
    [onSpanEnter], [enabled], [onEvent] with an event whose [span] is the
    span's context, and [onSpanExit]; afterwards the current span is the
    one from before. *)
Theorem events_in_run_belong_to_the_span w h s sub lvl message options :
  heap w !! h = Some s -> entered s = false ->
  globalSubscriber w = Some sub ->
  span_quiet sub ->
  (forall e, fst (enabled sub (emit_metadata lvl options) e) = Normal true) ->
  (forall ev e, fst (onEvent sub ev e) = Normal tt) ->
  let c := context s in
  let ev :=
    mkEvent (emit_metadata lvl options) message (emit_fields options)
      (Some c) (clock w) in
  let r := run h (emit lvl message options) w in
  fst r = Normal tt /\
  calls (snd r) =
    calls w ++
    [CallOnSpanEnter c; CallEnabled (emit_metadata lvl options);
     CallOnEvent ev; CallOnSpanExit c] /\
  currentSpan (snd r) = currentSpan w.
Proof.
  intros Hh He Hs Hq Hen Hev c ev r.
  destruct (enter_state w h s Hh He) as (H1 & C1 & S1 & _ & K1 & _ & L1).
  set (w1 := snd (enter h w)) in *. rewrite Hs in L1, S1.
  destruct (emit_state w1 sub lvl message options S1 (Hen _))
    as (L2 & R2 & H2 & C2 & S2).
  set (w2 := snd (emit lvl message options w1)) in *.
  rewrite C1, K1 in L2. fold c in L2. fold ev in L2.
  assert (Hh2 : heap w2 !! h = Some (mkSpan c (currentSpan w) true)).
  { rewrite H2, H1. apply list_lookup_insert_eq. eapply lookup_lt_Some; eauto. }
  assert (Hr : fst (enter h w) = Normal h).
  { apply (enter_returns w h s Hh He). intros sub' E.
    rewrite Hs in E. inversion E; subst. apply Hq. }
  assert (Hex : forall sub', globalSubscriber w2 = Some sub' ->
            fst (onSpanExit sub' c (ext w2)) = Normal tt).
  { intros sub' E. rewrite S2, S1 in E. inversion E; subst.
    exact (proj2 (Hq _ _)). }
  destruct (run_completes (emit lvl message options) w h _ Hr Hh2 eq_refl Hex)
    as (w3 & Hx & Hrun).
  destruct (exit_state w2 h _ Hh2 eq_refl Hex)
    as (w3' & Hx' & _ & C3 & _ & _ & _ & _ & L3).
  assert (E3 : w3' = w3).
  { change (exit h w2 = (Normal tt, w3)) in Hx. congruence. }
  subst w3'. rewrite S2, S1 in L3. simpl in C3, L3.
  unfold r. rewrite Hrun. simpl. split; [|split; [|exact C3]].
  - change (fst (emit lvl message options w1) = Normal tt).
    rewrite R2. apply Hev.
  - rewrite L3, L2, L1, <- !app_assoc. reflexivity.
Qed.


(** ** The order of the subscriber calls *)

Lemma call_log o w :
  exists delta, calls (call o w) = calls w ++ delta /\ emitted o delta.
Proof.
  destruct o as [sub|name fields metadata|h|h|lvl message options|now|f]; simpl;
    try (exists []; split; [now rewrite app_nil_r|reflexivity]).
  - unfold enter. destruct (heap w !! h) as [s|];
      [|exists []; split; [now rewrite app_nil_r|now left]].
    destruct (entered s); [exists []; split; [now rewrite app_nil_r|now left]|].
    unfold bind, notify, ret. simpl.
    destruct (globalSubscriber w) as [sub|]; simpl;
      [|exists []; split; [now rewrite app_nil_r|now left]].
    exists [CallOnSpanEnter (context s)].
    split; [|right; eauto].
    destruct (onSpanEnter sub (context s) (ext w)) as [[[]|x] e]; reflexivity.
  - unfold exit. destruct (heap w !! h) as [s|];
      [|exists []; split; [now rewrite app_nil_r|now left]].
    destruct (entered s); [|exists []; split; [now rewrite app_nil_r|now left]].
    unfold bind, notify. simpl.
    destruct (globalSubscriber w) as [sub|]; simpl;
      [|exists []; split; [now rewrite app_nil_r|now left]].
    exists [CallOnSpanExit (context s)].
    split; [|right; eauto].
    destruct (onSpanExit sub (context s) (ext w)) as [[[]|x] e]; reflexivity.
  - unfold emit, recordEvent, bind, notify, Date_now, ret. simpl.
    destruct (globalSubscriber w) as [sub|] eqn:Hs; simpl;
      [|exists []; split; [now rewrite app_nil_r|now left]].
    destruct (enabled sub _ (ext w)) as [[[|]|x] e]; simpl; rewrite ?Hs.
    + match goal with |- context [onEvent sub ?ev e] =>
        exists [CallEnabled (e_metadata ev); CallOnEvent ev];
        split; [|right; right; eauto];
        destruct (onEvent sub ev e) as [[[]|x] e']; simpl;
        now rewrite <- app_assoc end.
    + eexists. split; [reflexivity|]. right. left. eauto.
    + eexists. split; [reflexivity|]. right. left. eauto.
Qed.

Lemma gated_from_app prev l delta :
  gated_from prev l -> gated_from (last_call prev l) delta ->
  gated_from prev (l ++ delta).
Proof.
  revert prev. induction l as [|c l IH]; intros prev Hl Hd; simpl in *.
  - exact Hd.
  - destruct Hl as [Hc Hl]. split; [exact Hc|]. now apply IH.
Qed.

Lemma gated_emitted (o : Op Ext) delta prev :
  emitted o delta -> gated_from prev delta.
Proof.
  destruct o; simpl; intros H;
    repeat match goal with
           | H : _ \/ _ |- _ => destruct H as [H|H]
           | H : exists _, _ |- _ => destruct H as [? H]
           end; subst; simpl; auto.
Qed.

Lemma gated_exec ops w :
  gated_from None (calls w) -> gated_from None (calls (exec ops w)).
Proof.
  revert w. induction ops as [|o ops IH]; intros w Hw; simpl; [exact Hw|].
  apply IH. destruct (call_log o w) as (delta & -> & Hd).
  apply gated_from_app; [exact Hw|]. now apply (gated_emitted o).
Qed.

Lemma gated_from_split prev l l1 ev l2 :
  gated_from prev l -> l = l1 ++ CallOnEvent ev :: l2 ->
  last_call prev l1 = Some (CallEnabled (e_metadata ev)).
Proof.
  revert prev l. induction l1 as [|c l1 IH]; intros prev l Hl ->; simpl in *.
  - now destruct Hl.
  - destruct Hl as [_ Hl]. now apply (IH _ _ Hl).
Qed.

Lemma last_call_Some l c : last_call None l = Some c -> exists l0, l = l0 ++ [c].
Proof.
  assert (G : forall prev, last_call prev l = Some c ->
            (l = [] /\ prev = Some c) \/ exists l0, l = l0 ++ [c]).
  { induction l as [|d l IH]; intros prev H; simpl in *.
    - now left.
    - right. destruct (IH _ H) as [[-> E]|[l0 ->]].
      + inversion E; subst. now exists [].
      + now exists (d :: l0). }
  intros H. destruct (G None H) as [[_ E]|E]; [discriminate|exact E].
Qed.

(** X9.  Whatever the caller does, starting with the module as loaded,
    the subscriber calls come in an order in which every [onEvent] call
    stands right after the [enabled] call for that event's metadata: no
    event reaches the subscriber that it was not asked about just
    before. *)
Theorem onEvent_comes_right_after_enabled (e : Ext) (now : Z)
    (ops : list (Op Ext)) l1 ev l2 :
  calls (exec ops (initial e now)) = l1 ++ CallOnEvent ev :: l2 ->
  exists l0, l1 = l0 ++ [CallEnabled (e_metadata ev)].
Proof.
  intros H. apply last_call_Some.
  apply (gated_from_split None _ l1 ev l2 (gated_exec ops (initial e now) I) H).
Qed.

(** ** Parents *)

Lemma constructed_app hp sp c : constructed hp c -> constructed (hp ++ [sp]) c.
Proof.
  intros (j & sj & Hj & E). exists j, sj. split; [|exact E].
  rewrite lookup_app_l; [exact Hj|]. eapply lookup_lt_Some; eauto.
Qed.

Lemma constructed_insert hp h s s' c :
  hp !! h = Some s -> context s' = context s ->
  constructed hp c -> constructed (<[h := s']> hp) c.
Proof.
  intros Hh Ec (j & sj & Hj & E). destruct (decide (h = j)) as [->|Hne].
  - exists j, s'. split; [|congruence].
    apply list_lookup_insert_eq. eapply lookup_lt_Some; eauto.
  - exists j, sj. split; [|exact E]. now rewrite list_lookup_insert_ne.
Qed.

Lemma chain_ok_call o w : chain_ok w -> chain_ok (call o w).
Proof.
  intros (Hc & Hp & Hpar). unfold chain_ok.
  destruct (call_effect o w)
    as [H _ C|n f m _ H _ C|h s0 _ Hs0 _ H _ C|h s0 _ Hs0 _ H _ C];
    rewrite H, C.
  - auto.
  - split; [|split].
    + intros c E. apply constructed_app. auto.
    + intros i s c Hi E. apply constructed_app.
      destruct (decide (i < length (heap w))) as [Hlt|Hge].
      * rewrite lookup_app_l in Hi by assumption. eauto.
      * rewrite lookup_app_r in Hi by lia.
        destruct (i - length (heap w)) as [|k]; simpl in Hi; [|discriminate].
        inversion Hi; subst. discriminate.
    + intros i s p Hi E.
      destruct (decide (i < length (heap w))) as [Hlt|Hge].
      * rewrite lookup_app_l in Hi by assumption.
        destruct (Hpar i s p Hi E) as (j & sj & Hlt' & Hj & Ej).
        exists j, sj. split; [exact Hlt'|]. split; [|exact Ej].
        rewrite lookup_app_l; [exact Hj|]. eapply lookup_lt_Some; eauto.
      * rewrite lookup_app_r in Hi by lia.
        destruct (i - length (heap w)) as [|k] eqn:Ek; simpl in Hi; [|discriminate].
        inversion Hi; subst. simpl in E.
        destruct (Hc p E) as (j & sj & Hj & Ej).
        pose proof (lookup_lt_Some _ _ _ Hj) as Hlt.
        exists j, sj. split; [lia|]. split; [|exact Ej].
        now rewrite lookup_app_l.
  - pose proof (lookup_lt_Some _ _ _ Hs0) as Hlt. split; [|split].
    + intros c E. inversion E; subst. exists h. eexists. split.
      * now apply list_lookup_insert_eq.
      * reflexivity.
    + intros i s c Hi E. apply (constructed_insert _ h s0); [exact Hs0|reflexivity|].
      destruct (decide (h = i)) as [->|Hne].
      * rewrite list_lookup_insert_eq in Hi by assumption.
        inversion Hi; subst. simpl in E. auto.
      * rewrite list_lookup_insert_ne in Hi by assumption. eauto.
    + intros i s p Hi E.
      assert (exists s1, heap w !! i = Some s1 /\ context s1 = context s) as (s1 & Hi1 & E1).
      { destruct (decide (h = i)) as [->|Hne].
        - rewrite list_lookup_insert_eq in Hi by assumption.
          inversion Hi; subst. eauto.
        - rewrite list_lookup_insert_ne in Hi by assumption. eauto. }
      rewrite <- E1 in E. destruct (Hpar i s1 p Hi1 E) as (j & sj & Hlt' & Hj & Ej).
      destruct (decide (h = j)) as [->|Hne].
      * eexists j, _. split; [exact Hlt'|]. split.
        -- now apply list_lookup_insert_eq.
        -- simpl. congruence.
      * exists j, sj. split; [exact Hlt'|]. split; [|exact Ej].
        now rewrite list_lookup_insert_ne.
  - pose proof (lookup_lt_Some _ _ _ Hs0) as Hlt. split; [|split].
    + intros c E. apply (constructed_insert _ h s0); [exact Hs0|reflexivity|].
      eauto.
    + intros i s c Hi E. apply (constructed_insert _ h s0); [exact Hs0|reflexivity|].
      destruct (decide (h = i)) as [->|Hne].
      * rewrite list_lookup_insert_eq in Hi by assumption.
        inversion Hi; subst. simpl in E. eauto.
      * rewrite list_lookup_insert_ne in Hi by assumption. eauto.
    + intros i s p Hi E.
      assert (exists s1, heap w !! i = Some s1 /\ context s1 = context s) as (s1 & Hi1 & E1).
      { destruct (decide (h = i)) as [->|Hne].
        - rewrite list_lookup_insert_eq in Hi by assumption.
          inversion Hi; subst. eauto.
        - rewrite list_lookup_insert_ne in Hi by assumption. eauto. }
      rewrite <- E1 in E. destruct (Hpar i s1 p Hi1 E) as (j & sj & Hlt' & Hj & Ej).
      destruct (decide (h = j)) as [->|Hne].
      * eexists j, _. split; [exact Hlt'|]. split.
        -- now apply list_lookup_insert_eq.
        -- simpl. congruence.
      * exists j, sj. split; [exact Hlt'|]. split; [|exact Ej].
        now rewrite list_lookup_insert_ne.
Qed.

Lemma chain_ok_exec ops w : chain_ok w -> chain_ok (exec ops w).
Proof.
  revert w. induction ops as [|o ops IH]; intros w Hw; simpl; [exact Hw|].
  apply IH. now apply chain_ok_call.
Qed.

(** X10.  Whatever the caller does, starting with the module as loaded:
    the current span, when there is one, is the context of a span that
    was constructed; and the parent of a span, when it has one, is the
    context of a span constructed before it, with a smaller id.  So
    following parents from any span ends after finitely many steps at a
    span without parent. *)
Theorem parents_are_spans_constructed_earlier (e : Ext) (now : Z)
    (ops : list (Op Ext)) :
  let w := exec ops (initial e now) in
  (forall c, currentSpan w = Some c ->
     exists j sj, heap w !! j = Some sj /\ context sj = c) /\
  (forall i s p, heap w !! i = Some s -> sc_parent (context s) = Some p ->
     exists j sj,
       j < i /\ heap w !! j = Some sj /\ context sj = p /\
       (sc_id p < sc_id (context s))%Z).
Proof.
  intros w.
  assert (Hk : chain_ok w).
  { apply chain_ok_exec. split; [|split].
    - intros c E. discriminate.
    - intros i s c E. discriminate.
    - intros i s p E. discriminate. }
  assert (Hi : ids_in_order w).
  { apply ids_in_order_exec. split; [reflexivity|]. intros i s E. discriminate. }
  destruct Hk as (Hc & _ & Hpar). destruct Hi as [_ Hi].
  split; [exact Hc|]. intros i s p Hs E.
  destruct (Hpar i s p Hs E) as (j & sj & Hlt & Hj & Ej).
  exists j, sj. split; [exact Hlt|]. split; [exact Hj|]. split; [exact Ej|].
  rewrite <- Ej, (Hi _ _ Hs), (Hi _ _ Hj). lia.
Qed.

(** ** Spans constructed and run inside one another *)

(** [span(...)] followed by [run] of a body, in one lemma: the new span
    is entered, the body runs, the span is exited. *)
Lemma span_run_state {A} (body : M Ext A) w sub name fields metadata :
  globalSubscriber w = Some sub -> span_quiet sub ->
  let h := length (heap w) in
  let c := new_context w name fields metadata in
  let w1 := snd (enter h (snd (span name fields metadata w))) in
  let w2 := snd (body w1) in
  heap w2 !! h = heap w1 !! h ->
  globalSubscriber w2 = globalSubscriber w1 ->
  let r := bind (span name fields metadata) (fun o => run o body) w in
  (heap w1 =
     <[h := mkSpan c (currentSpan w) true]> (heap w ++ [mkSpan c None false]) /\
   currentSpan w1 = Some c /\
   globalSubscriber w1 = Some sub /\
   spanIdCounter w1 = (spanIdCounter w + 1)%Z /\
   clock w1 = clock w /\
   calls w1 = calls w ++ [CallOnSpanEnter c]) /\
  fst r = fst (body w1) /\
  heap (snd r) = <[h := mkSpan c (currentSpan w) false]> (heap w2) /\
  currentSpan (snd r) = currentSpan w /\
  globalSubscriber (snd r) = Some sub /\
  spanIdCounter (snd r) = spanIdCounter w2 /\
  clock (snd r) = clock w2 /\
  calls (snd r) = calls w2 ++ [CallOnSpanExit c].
Proof.
  intros Hs Hq h c w1 w2 Hsame Hs2 r.
  assert (Hr : r = run h body (snd (span name fields metadata w))) by reflexivity.
  set (w0 := snd (span name fields metadata w)) in *.
  assert (Hw0 : heap w0 = heap w ++ [mkSpan c None false]) by reflexivity.
  assert (Hh0 : heap w0 !! h = Some (mkSpan c None false)).
  { rewrite Hw0, lookup_app_r by (unfold h; lia). unfold h.
    now rewrite Nat.sub_diag. }
  destruct (enter_state w0 h _ Hh0 eq_refl) as (H1 & C1 & S1 & N1 & K1 & _ & L1).
  fold w1 in H1, C1, S1, N1, K1, L1.
  change (globalSubscriber w0) with (globalSubscriber w) in S1, L1.
  rewrite Hs in S1, L1. rewrite S1 in Hs2.
  assert (Hh1 : heap w1 !! h = Some (mkSpan c (currentSpan w) true)).
  { rewrite H1. apply list_lookup_insert_eq. eapply lookup_lt_Some; eauto. }
  assert (Hen : fst (enter h w0) = Normal h).
  { apply (enter_returns w0 h _ Hh0 eq_refl). intros sub' E.
    change (globalSubscriber w = Some sub') in E. rewrite Hs in E.
    inversion E; subst. exact (proj1 (Hq _ _)). }
  assert (Hh2 : heap w2 !! h = Some (mkSpan c (currentSpan w) true)) by congruence.
  assert (Hex : forall sub', globalSubscriber w2 = Some sub' ->
            fst (onSpanExit sub' c (ext w2)) = Normal tt).
  { intros sub' E. rewrite Hs2 in E. inversion E; subst. exact (proj2 (Hq _ _)). }
  destruct (run_completes body w0 h _ Hen Hh2 eq_refl Hex) as (w3 & Hx & Hrun).
  destruct (exit_state w2 h _ Hh2 eq_refl Hex)
    as (w3' & Hx' & H3 & C3 & S3 & N3 & K3 & _ & L3).
  assert (E3 : w3' = w3).
  { change (exit h w2 = (Normal tt, w3)) in Hx. congruence. }
  subst w3'. rewrite Hs2 in L3, S3. simpl in H3, C3, L3.
  split; [repeat split; auto|].
  rewrite Hr, Hrun. simpl. repeat split; auto.
Qed.

(** X11.  [span(outer).run(() => span(inner).run(() => r))], the body
    [r] being any value returned or error thrown without touching the
    module, under a subscriber whose span callbacks return: the
    subscriber sees enter(outer), enter(inner), exit(inner), exit(outer);
    the inner span has the outer span's context as parent and the next
    id; the result is [r], and the current span is the one from before. *)
Theorem nested_runs_give_parent_and_child {A} (r : Completion A) w sub
    name_o fields_o metadata_o name_i fields_i metadata_i :
  globalSubscriber w = Some sub -> span_quiet sub ->
  let prog :=
    bind (span name_o fields_o metadata_o) (fun o =>
      run o (bind (span name_i fields_i metadata_i) (fun i =>
        run i (fun w' => (r, w'))))) in
  let co := new_context w name_o fields_o metadata_o in
  let md := default no_metadata metadata_i in
  let ci :=
    mkSpanContext (sc_id co + 1) name_i
      (mkMetadata (default INFO (p_level md)) (p_target md) (p_file md)
         (p_line md))
      (default [] fields_i) (Some co) (clock w) in
  fst (prog w) = r /\
  calls (snd (prog w)) =
    calls w ++
    [CallOnSpanEnter co; CallOnSpanEnter ci;
     CallOnSpanExit ci; CallOnSpanExit co] /\
  currentSpan (snd (prog w)) = currentSpan w /\
  (context <$> heap (snd (prog w)) !! length (heap w)) = Some co /\
  (context <$> heap (snd (prog w)) !! S (length (heap w))) = Some ci.
Proof.
  intros Hs Hq prog co md ci.
  set (ho := length (heap w)).
  set (w1 := snd (enter ho (snd (span name_o fields_o metadata_o w)))).
  set (inner := bind (span name_i fields_i metadata_i) (fun i =>
                  run i (fun w' : World Ext => (r, w')))).
  (* the outer span, up to the start of its body *)
  assert (Ho1 : heap w1 =
                  <[ho := mkSpan co (currentSpan w) true]>
                    (heap w ++ [mkSpan co None false]) /\
                currentSpan w1 = Some co /\
                globalSubscriber w1 = Some sub /\
                spanIdCounter w1 = (spanIdCounter w + 1)%Z /\
                clock w1 = clock w).
  { assert (Hh0 : heap (snd (span name_o fields_o metadata_o w)) !! ho
                  = Some (mkSpan co None false)).
    { simpl. rewrite lookup_app_r by (unfold ho; lia). unfold ho.
      now rewrite Nat.sub_diag. }
    destruct (enter_state _ ho _ Hh0 eq_refl) as (H1 & C1 & S1 & N1 & K1 & _).
    fold w1 in H1, C1, S1, N1, K1. simpl in S1. rewrite Hs in S1.
    repeat split; auto. }
  destruct Ho1 as (H1 & C1 & S1 & N1 & K1).
  assert (Len1 : length (heap w1) = S ho).
  { rewrite H1, length_insert, length_app. simpl. unfold ho. lia. }
  (* the inner span, constructed and run from there *)
  assert (Eci : new_context w1 name_i fields_i metadata_i = ci).
  { unfold new_context, ci. fold md. rewrite N1, C1, K1. reflexivity. }
  set (wi := snd (enter (length (heap w1))
                    (snd (span name_i fields_i metadata_i w1)))).
  destruct (span_run_state (fun w' : World Ext => (r, w')) w1 sub
              name_i fields_i metadata_i S1 Hq eq_refl eq_refl)
    as ((Hi1 & _ & _ & _ & _ & Li1) & Ri & Hi & Ci & Si & _ & _ & Li).
  fold inner in Ri, Hi, Ci, Si, Li. fold wi in Hi1, Li1.
  change (fst (inner w1) = r) in Ri.
  change (heap (snd (inner w1)) =
          <[length (heap w1) :=
              mkSpan (new_context w1 name_i fields_i metadata_i)
                (currentSpan w1) false]> (heap wi)) in Hi.
  change (calls (snd (inner w1)) =
          calls wi ++
          [CallOnSpanExit (new_context w1 name_i fields_i metadata_i)]) in Li.
  rewrite Eci, Len1 in *. rewrite Hi1 in Hi. rewrite Li1 in Li.
  assert (Hlo : ho < length (heap w ++ [mkSpan co None false])).
  { rewrite length_app. simpl. unfold ho. lia. }
  assert (Hho : heap (snd (inner w1)) !! ho = heap w1 !! ho).
  { rewrite Hi. rewrite !list_lookup_insert_ne by lia.
    rewrite lookup_app_l by (rewrite Len1; lia). reflexivity. }
  (* the outer span around it *)
  destruct (span_run_state inner w sub name_o fields_o metadata_o Hs Hq)
    as ((_ & _ & _ & _ & _ & Lo1) & Ro & Ho & Co & _ & _ & _ & Lo).
  { exact Hho. }
  { fold ho. fold w1. congruence. }
  fold ho w1 co in Lo1, Ro, Ho, Co, Lo. unfold prog. fold inner.
  split; [congruence|]. split; [|split; [exact Co|split]].
  - rewrite Lo, Li, Lo1, <- !app_assoc. reflexivity.
  - rewrite Ho. rewrite list_lookup_insert_eq; [reflexivity|].
    rewrite Hi, !length_insert, length_app, Len1. simpl. lia.
  - rewrite Ho. rewrite list_lookup_insert_ne by lia.
    rewrite Hi. rewrite list_lookup_insert_eq; [reflexivity|].
    rewrite length_insert, length_app, Len1. simpl. lia.
Qed.

End Further.

(** ** The collector *)

Lemma collector_step (o : Op Collector) (w : World Collector) :
  globalSubscriber w = Some CollectorSubscriber -> stays_installed o ->
  globalSubscriber (call o w) = Some CollectorSubscriber /\
  minLevel (ext (call o w)) = minLevel (ext w) /\
  exists delta,
    calls (call o w) = calls w ++ delta /\
    events (ext (call o w)) = events (ext w) ++ eventCalls delta /\
    spans (ext (call o w)) = spans (ext w) ++ spanCalls delta /\
    map (fun ev => (level (e_metadata ev), e_message ev)) (eventCalls delta)
      = passed (minLevel (ext w)) [o] /\
    Forall (fun ev => (level_value (minLevel (ext w))
                       <= level_value (level (e_metadata ev)))%Z)
      (eventCalls delta).
Proof.
  intros Hs Hi.
  assert (Nil : forall w' : World Collector,
            globalSubscriber w' = Some CollectorSubscriber ->
            minLevel (ext w') = minLevel (ext w) ->
            calls w' = calls w -> ext w' = ext w ->
            globalSubscriber w' = Some CollectorSubscriber /\
            minLevel (ext w') = minLevel (ext w) /\
            exists delta,
              calls w' = calls w ++ delta /\
              events (ext w') = events (ext w) ++ eventCalls delta /\
              spans (ext w') = spans (ext w) ++ spanCalls delta /\
              map (fun ev => (level (e_metadata ev), e_message ev))
                (eventCalls delta) = [] /\
              Forall (fun ev => (level_value (minLevel (ext w))
                                 <= level_value (level (e_metadata ev)))%Z)
                (eventCalls delta)).
  { intros w' A B C D. split; [exact A|]. split; [exact B|].
    exists []. rewrite C, D, !app_nil_r. repeat split; constructor. }
  destruct o as [sub|name fields metadata|h|h|lvl message options|now|f];
    simpl in Hi; try contradiction.
  - apply Nil; auto.
  - simpl. unfold enter. destruct (heap w !! h) as [s|]; [|apply Nil; auto].
    destruct (entered s); [apply Nil; auto|].
    unfold bind, notify, ret. simpl. rewrite Hs. simpl.
    split; [first [exact Hs|reflexivity]|]. split; [reflexivity|].
    exists [CallOnSpanEnter (context s)]. simpl. rewrite ?app_nil_r.
    repeat split; constructor.
  - simpl. unfold exit. destruct (heap w !! h) as [s|]; [|apply Nil; auto].
    destruct (entered s); [|apply Nil; auto].
    unfold bind, notify. simpl. rewrite Hs. simpl.
    split; [first [exact Hs|reflexivity]|]. split; [reflexivity|].
    exists [CallOnSpanExit (context s)]. simpl. rewrite ?app_nil_r.
    repeat split; constructor.
  - simpl. unfold emit, recordEvent, bind, notify, Date_now, ret. simpl.
    rewrite Hs. simpl. unfold passed. simpl.
    destruct (level_value lvl >=? level_value (minLevel (ext w)))%Z eqn:Hl; simpl.
    + split; [reflexivity|]. split; [reflexivity|].
      eexists [_; _]. rewrite <- app_assoc. simpl.
      split; [reflexivity|]. split; [reflexivity|].
      split; [now rewrite app_nil_r|]. split; [reflexivity|].
      constructor; [|constructor]. simpl.
      apply Z.geb_le in Hl. exact Hl.
    + split; [first [exact Hs|reflexivity]|]. split; [reflexivity|].
      exists [CallEnabled (mkMetadata lvl
                (o_target (normalizeLogOptions options)) None None)].
      simpl. rewrite !app_nil_r. repeat split; constructor.
  - apply Nil; auto.
Qed.

(** X12.  A [CollectorSubscriber] that stays installed collects exactly
    what the module told it: its [events] are the events of the
    [onEvent] calls and its [spans] the span notifications, in order;
    the events are those of the emitter calls whose level is at least
    its [minLevel], which never changes; span notifications are
    collected whatever the span's level. *)
Theorem collector_keeps_what_it_is_told (minimum : option Level) (now : Z)
    (ops : list (Op Collector)) :
  Forall stays_installed ops ->
  let w := exec ops (collecting minimum now) in
  let c := ext w in
  minLevel c = default TRACE minimum /\
  events c = eventCalls (calls w) /\
  spans c = spanCalls (calls w) /\
  map (fun ev => (level (e_metadata ev), e_message ev)) (events c)
    = passed (default TRACE minimum) ops /\
  Forall (fun ev => (level_value (default TRACE minimum)
                     <= level_value (level (e_metadata ev)))%Z) (events c).
Proof.
  intros Hops.
  assert (G : forall (w0 : World Collector),
            globalSubscriber w0 = Some CollectorSubscriber ->
            let w := exec ops w0 in
            minLevel (ext w) = minLevel (ext w0) /\
            exists delta,
              calls w = calls w0 ++ delta /\
              events (ext w) = events (ext w0) ++ eventCalls delta /\
              spans (ext w) = spans (ext w0) ++ spanCalls delta /\
              map (fun ev => (level (e_metadata ev), e_message ev))
                (eventCalls delta) = passed (minLevel (ext w0)) ops /\
              Forall (fun ev => (level_value (minLevel (ext w0))
                                 <= level_value (level (e_metadata ev)))%Z)
                (eventCalls delta)).
  { induction Hops as [|o ops Ho Hops IH]; intros w0 Hs; simpl.
    - split; [reflexivity|]. exists []. rewrite !app_nil_r.
      repeat split; constructor.
    - destruct (collector_step o w0 Hs Ho)
        as (Hs1 & M1 & d1 & L1 & E1 & P1 & Q1 & F1).
      destruct (IH (call o w0) Hs1) as (M2 & d2 & L2 & E2 & P2 & Q2 & F2).
      split; [congruence|]. exists (d1 ++ d2).
      rewrite L2, L1, E2, E1, P2, P1, <- !app_assoc.
      unfold eventCalls, spanCalls in *. rewrite !omap_app.
      split; [reflexivity|]. split; [reflexivity|]. split; [reflexivity|].
      split.
      + rewrite map_app, Q1, Q2, M1. unfold passed. simpl.
        destruct o; simpl; try reflexivity.
        destruct (_ >=? _)%Z; reflexivity.
      + apply Forall_app. split; [exact F1|]. now rewrite <- M1. }
  intros w c. destruct (G (collecting minimum now) eq_refl)
    as (M & d & L & E & P & Q & F).
  fold w in M, L, E, P. fold c in M, E, P.
  simpl in M, L, E, P, Q, F. subst c.
  rewrite M, E, P, L. repeat split; auto.
Qed.

(** ** The console subscriber *)

Lemma length_append (a b : string) :
  String.length (a ++ b) = String.length a + String.length b.
Proof. induction a as [|c a IH]; simpl; [reflexivity|]. now rewrite IH. Qed.

Lemma leading_spaces_indent (n : nat) (body : string) :
  leading_spaces (copies n "  " ++ body) = 2 * n + leading_spaces body.
Proof.
  induction n as [|n IH]; [reflexivity|].
  simpl in *. rewrite IH. lia.
Qed.

Lemma String_repeat_returns (s : string) (n : nat) :
  String_repeat s (Z.of_nat n) = Normal (copies n s).
Proof.
  unfold String_repeat. destruct (Z.ltb_spec (Z.of_nat n) 0); [lia|].
  now rewrite Nat2Z.id.
Qed.

Lemma entered_count_app (l : list Span) (s : Span) :
  entered_count (l ++ [s]) = entered_count l + (if entered s then 1 else 0).
Proof.
  unfold entered_count. rewrite List.filter_app, length_app. simpl.
  destruct (entered s); reflexivity.
Qed.

Lemma entered_count_insert (l : list Span) (h : nat) (s s' : Span) :
  l !! h = Some s ->
  entered_count (<[h := s']> l) + (if entered s then 1 else 0)
  = entered_count l + (if entered s' then 1 else 0).
Proof.
  revert h. induction l as [|a l IH]; intros h Hh; [discriminate|].
  destruct h as [|h]; simpl in Hh.
  - inversion Hh; subst a. unfold entered_count. simpl.
    destruct (entered s), (entered s'); simpl; lia.
  - specialize (IH h Hh). unfold entered_count in *. simpl.
    destruct (entered a); simpl; lia.
Qed.

Lemma formatFields_obj rt c (o : Obj) :
  exists text, formatFields rt c (JObj o) = Normal text.
Proof. unfold formatFields. simpl. destruct o; eauto. Qed.

Lemma formatFields_returns rt c (v : JsValue) :
  v <> JNull -> v <> JUndefined ->
  exists text, formatFields rt c v = Normal text.
Proof.
  intros H1 H2. unfold formatFields.
  destruct v; try contradiction; simpl; try (eexists; reflexivity).
  - destruct (indexed 0 (characters s)); eauto.
  - destruct (indexed 0 l); eauto.
  - destruct o; eauto.
Qed.

(** [onSpanEnter] returns; it pushes the span, and prints one line for a
    span that is enabled. *)
Lemma Console_onSpanEnter_spec rt (sp : SpanContext) (t : Terminal) :
  exists line,
    leading_spaces line = 2 * length (spanStack (console t)) /\
    Console_onSpanEnter rt sp t =
      (Normal tt,
       mkTerminal (with_spanStack (spanStack (console t) ++ [sp]) (console t))
         (if Console_enabled (sc_metadata sp) (console t)
          then out t ++ [line] else out t)
         (wall t)).
Proof.
  destruct t as [[ml co tf st stack] o wl]. unfold Console_onSpanEnter.
  cbn [console spanStack con_minLevel con_colors con_timestampFormat
       con_showTargets set_console out wall].
  change (Console_enabled (sc_metadata sp)
            (mkConsole ml co tf st (stack ++ [sp])))
    with (Console_enabled (sc_metadata sp) (mkConsole ml co tf st stack)).
  destruct (Console_enabled (sc_metadata sp) (mkConsole ml co tf st stack));
    cbn [negb].
  2: { exists (copies (length stack) "  " ++ "-")%string. split; [|reflexivity].
       rewrite leading_spaces_indent. simpl. lia. }
  replace (Z.of_nat (length (stack ++ [sp])) - 1)%Z
    with (Z.of_nat (length stack)) by (rewrite length_app; simpl; lia).
  rewrite String_repeat_returns.
  destruct (formatFields_obj rt (mkConsole ml co tf st (stack ++ [sp]))
              (sc_fields sp)) as [text ->].
  destruct co; eexists; (split; [|reflexivity]);
    rewrite leading_spaces_indent; simpl; lia.
Qed.

(** [onSpanExit] with a span on the stack returns; it prints one line
    for a span that is enabled and pops the stack. *)
Lemma Console_onSpanExit_spec (sp : SpanContext) (t : Terminal) :
  spanStack (console t) <> [] ->
  exists line,
    leading_spaces line = 2 * (length (spanStack (console t)) - 1) /\
    Console_onSpanExit sp t =
      (Normal tt,
       mkTerminal (with_spanStack (removelast (spanStack (console t))) (console t))
         (if Console_enabled (sc_metadata sp) (console t)
          then out t ++ [line] else out t)
         (wall t)).
Proof.
  destruct t as [[ml co tf st stack] o wl]. unfold Console_onSpanExit.
  cbn [console spanStack con_minLevel con_colors con_timestampFormat
       con_showTargets set_console out wall].
  intros Hne.
  destruct (Console_enabled (sc_metadata sp) (mkConsole ml co tf st stack)).
  2: { exists (copies (length stack - 1) "  " ++ "<")%string.
       split; [|reflexivity]. rewrite leading_spaces_indent. simpl. lia. }
  replace (Z.of_nat (length stack) - 1)%Z with (Z.of_nat (length stack - 1))
    by (destruct stack; [contradiction|simpl; lia]).
  rewrite String_repeat_returns.
  destruct co; eexists; (split; [|reflexivity]);
    rewrite leading_spaces_indent; simpl; lia.
Qed.

(** [onSpanExit] with an empty stack: [repeat(-1)] throws for a span that
    is enabled, before anything is printed or popped. *)
Lemma Console_onSpanExit_empty (sp : SpanContext) (t : Terminal) :
  spanStack (console t) = [] ->
  Console_enabled (sc_metadata sp) (console t) = true ->
  Console_onSpanExit sp t = (Throw RangeError, t).
Proof.
  intros Hs He. unfold Console_onSpanExit. rewrite He, Hs. reflexivity.
Qed.

(** [onEvent] returns and prints one line unless the fields are [null]
    or [undefined]. *)
Lemma Console_onEvent_spec rt (ev : Event) (t : Terminal) :
  e_fields ev <> JNull -> e_fields ev <> JUndefined ->
  exists line,
    (con_colors (console t) = true ->
     leading_spaces line = 2 * length (spanStack (console t))) /\
    Console_onEvent rt ev t =
      (Normal tt, mkTerminal (console t) (out t ++ [line]) (wall t)).
Proof.
  intros H1 H2. unfold Console_onEvent. rewrite String_repeat_returns.
  destruct (formatFields_returns rt (console t) (e_fields ev) H1 H2)
    as [text ->].
  destruct (con_colors (console t)) eqn:Hc; eexists;
    (split; [|reflexivity]); [|discriminate].
  intros _. rewrite leading_spaces_indent.
  unfold formatTimestamp. rewrite Hc.
  destruct (con_timestampFormat (console t)).
  - simpl. lia.
  - destruct (level (e_metadata ev)); simpl; lia.
Qed.

Lemma Console_onEvent_null rt (ev : Event) (t : Terminal) :
  e_fields ev = JNull ->
  Console_onEvent rt ev t = (Throw TypeError, t).
Proof.
  intros H. unfold Console_onEvent. rewrite String_repeat_returns.
  unfold formatFields. rewrite H. reflexivity.
Qed.

Lemma Console_onEvent_console rt (ev : Event) (t : Terminal) :
  console (snd (Console_onEvent rt ev t)) = console t.
Proof.
  unfold Console_onEvent. rewrite String_repeat_returns.
  destruct (formatFields rt (console t) (e_fields ev)); [|reflexivity].
  destruct (con_colors (console t)); reflexivity.
Qed.

Lemma entered_count_positive (l : list Span) (h : nat) (s : Span) :
  l !! h = Some s -> entered s = true -> 0 < entered_count l.
Proof.
  intros Hh He.
  pose proof (entered_count_insert l h s (mkSpan (context s) None false) Hh) as H.
  rewrite He in H. simpl in H. lia.
Qed.

(** What an emitter does to the console: the object stays as it is. *)
Lemma console_emit_frame rt (w : World Terminal) lvl message options :
  globalSubscriber w = Some (ConsoleSubscriber rt) ->
  console (ext (snd (emit lvl message options w))) = console (ext w).
Proof.
  intros Hs. unfold emit, recordEvent, bind, notify, Date_now, ret. simpl.
  rewrite Hs. simpl.
  destruct (Console_enabled _ (console (ext w))); simpl; [|reflexivity].
  match goal with
  | |- context [Console_onEvent rt ?ev ?t] =>
      pose proof (Console_onEvent_console rt ev t) as H;
      destruct (Console_onEvent rt ev t) as [[[]|x] t']
  end; simpl in *; exact H.
Qed.

Lemma console_step rt (o : Op Terminal) (w : World Terminal) :
  console_inv rt w -> leaves_console o -> console_inv rt (call o w).
Proof.
  intros [Hs Hl] Ho.
  destruct o as [sub|name fields metadata|h|h|lvl message options|now|f];
    simpl in Ho; try contradiction.
  - split; [exact Hs|]. simpl. rewrite entered_count_app. simpl. lia.
  - simpl. unfold enter. destruct (heap w !! h) as [s|] eqn:Hh; [|split; assumption].
    destruct (entered s) eqn:He; [split; assumption|].
    unfold bind, notify, ret. simpl. rewrite Hs. simpl.
    destruct (Console_onSpanEnter_spec rt (context s) (ext w)) as (line & _ & ->).
    split; [first [exact Hs|reflexivity]|]. unfold with_spanStack. simpl. rewrite length_app. simpl.
    pose proof (entered_count_insert (heap w) h s
                  (mkSpan (context s) (currentSpan w) true) Hh) as H.
    rewrite He in H. simpl in H. lia.
  - simpl. unfold exit. destruct (heap w !! h) as [s|] eqn:Hh; [|split; assumption].
    destruct (entered s) eqn:He; [|split; assumption].
    pose proof (entered_count_positive _ _ _ Hh He) as Hp.
    assert (Hne : spanStack (console (ext w)) <> []).
    { intros E. rewrite E in Hl. simpl in Hl. lia. }
    unfold bind, notify. simpl. rewrite Hs. simpl.
    destruct (Console_onSpanExit_spec (context s) (ext w) Hne) as (line & _ & ->).
    split; [first [exact Hs|reflexivity]|]. unfold with_spanStack. simpl.
    pose proof (entered_count_insert (heap w) h s
                  (mkSpan (context s) (previousSpan s) false) Hh) as H.
    rewrite He in H. simpl in H.
    destruct (spanStack (console (ext w))) as [|c l] using rev_ind;
      [contradiction|].
    rewrite removelast_last. rewrite length_app in Hl. simpl in Hl. lia.
  - split.
    + pose proof (recordEvent_frame lvl message
                    (o_fields (normalizeLogOptions options))
                    (Some (mkPartialMetadata None
                             (o_target (normalizeLogOptions options)) None None))
                    w) as (F & _).
      simpl. unfold emit. rewrite F. exact Hs.
    + simpl. rewrite (console_emit_frame rt w lvl message options Hs).
      pose proof (recordEvent_frame lvl message
                    (o_fields (normalizeLogOptions options))
                    (Some (mkPartialMetadata None
                             (o_target (normalizeLogOptions options)) None None))
                    w) as (_ & _ & _ & F & _).
      unfold emit. rewrite F. exact Hl.
  - split; assumption.
  - split; [exact Hs|]. simpl. rewrite Ho. exact Hl.
Qed.

Lemma console_exec rt (ops : list (Op Terminal)) (w : World Terminal) :
  console_inv rt w -> Forall leaves_console ops -> console_inv rt (exec ops w).
Proof.
  intros Hi Hf. revert w Hi.
  induction Hf as [|o ops Ho _ IH]; intros w Hi; [exact Hi|].
  simpl. apply IH. apply console_step; assumption.
Qed.

Lemma consoling_inv rt options now : console_inv rt (consoling rt options now).
Proof. split; reflexivity. Qed.

(** The constructor's settings are never changed. *)
Lemma console_settings_step rt (o : Op Terminal) (w : World Terminal) :
  globalSubscriber w = Some (ConsoleSubscriber rt) -> leaves_console o ->
  with_spanStack [] (console (ext (call o w))) = with_spanStack [] (console (ext w)).
Proof.
  intros Hs Ho.
  destruct o as [sub|name fields metadata|h|h|lvl message options|now|f];
    simpl in Ho; try contradiction; try reflexivity.
  - simpl. unfold enter. destruct (heap w !! h) as [s|]; [|reflexivity].
    destruct (entered s); [reflexivity|].
    unfold bind, notify, ret. simpl. rewrite Hs. simpl.
    destruct (Console_onSpanEnter_spec rt (context s) (ext w)) as (line & _ & ->).
    reflexivity.
  - simpl. unfold exit. destruct (heap w !! h) as [s|]; [|reflexivity].
    destruct (entered s); [|reflexivity].
    unfold bind, notify. simpl. rewrite Hs. simpl.
    unfold Console_onSpanExit, with_spanStack.
    destruct (Console_enabled (sc_metadata (context s)) (console (ext w)));
      [|reflexivity].
    destruct (String_repeat "  " _); [|reflexivity].
    destruct (con_colors (console (ext w))) eqn:Hc; simpl; rewrite ?Hc;
      reflexivity.
  - simpl. now rewrite (console_emit_frame rt w lvl message options Hs).
  - simpl. now rewrite Ho.
Qed.

Lemma console_enter_out rt (w : World Terminal) h s :
  globalSubscriber w = Some (ConsoleSubscriber rt) ->
  heap w !! h = Some s -> entered s = false ->
  exists line,
    leading_spaces line = 2 * length (spanStack (console (ext w))) /\
    fst (enter h w) = Normal h /\
    out (ext (snd (enter h w))) =
      if Console_enabled (sc_metadata (context s)) (console (ext w))
      then out (ext w) ++ [line] else out (ext w).
Proof.
  intros Hs Hh He. unfold enter. rewrite Hh, He.
  unfold bind, notify, ret. simpl. rewrite Hs. simpl.
  destruct (Console_onSpanEnter_spec rt (context s) (ext w)) as (line & Hl & ->).
  exists line. simpl. auto.
Qed.

Lemma console_exit_out rt (w : World Terminal) h s :
  globalSubscriber w = Some (ConsoleSubscriber rt) ->
  heap w !! h = Some s -> entered s = true ->
  spanStack (console (ext w)) <> [] ->
  exists line,
    leading_spaces line = 2 * (length (spanStack (console (ext w))) - 1) /\
    fst (exit h w) = Normal tt /\
    out (ext (snd (exit h w))) =
      if Console_enabled (sc_metadata (context s)) (console (ext w))
      then out (ext w) ++ [line] else out (ext w).
Proof.
  intros Hs Hh He Hne. unfold exit. rewrite Hh, He.
  unfold bind, notify. simpl. rewrite Hs. simpl.
  destruct (Console_onSpanExit_spec (context s) (ext w) Hne) as (line & Hl & ->).
  exists line. simpl. auto.
Qed.

(** An emitter under the console subscriber: dropped below the minimum
    level, a [TypeError] for [fields: null], one line otherwise. *)
Lemma console_emit rt (w : World Terminal) lvl message options :
  globalSubscriber w = Some (ConsoleSubscriber rt) ->
  let r := emit lvl message options w in
  let c := console (ext w) in
  if Console_enabled (emit_metadata lvl options) c then
    match o_fields (normalizeLogOptions options) with
    | JNull => fst r = Throw TypeError /\ ext (snd r) = ext w
    | _ =>
        fst r = Normal tt /\
        exists line,
          ext (snd r) = mkTerminal c (out (ext w) ++ [line]) (wall (ext w)) /\
          (con_colors c = true ->
           leading_spaces line = 2 * length (spanStack c))
    end
  else fst r = Normal tt /\ ext (snd r) = ext w.
Proof.
  intros Hs. unfold emit, recordEvent, bind, notify, Date_now, ret, emit_metadata.
  simpl. rewrite Hs. simpl.
  destruct (Console_enabled _ (console (ext w))) eqn:En; simpl;
    [|split; reflexivity].
  destruct (o_fields (normalizeLogOptions options)) eqn:Hf; simpl;
    try (rewrite Console_onEvent_null by reflexivity; simpl; split; reflexivity);
    match goal with
    | |- context [Console_onEvent rt ?ev ?t] =>
        destruct (Console_onEvent_spec rt ev t) as (line & Hl & ->);
        [discriminate|discriminate|]
    end; simpl; (split; [reflexivity|]); exists line; split;
    solve [reflexivity|exact Hl].
Qed.

Lemma console_settings_exec rt (ops : list (Op Terminal)) (w : World Terminal) :
  console_inv rt w -> Forall leaves_console ops ->
  with_spanStack [] (console (ext (exec ops w))) = with_spanStack [] (console (ext w)).
Proof.
  intros Hi Hf. revert w Hi.
  induction Hf as [|o ops Ho _ IH]; intros w Hi; [reflexivity|].
  simpl. rewrite IH by (apply console_step; assumption).
  apply (console_settings_step rt); [exact (proj1 Hi)|exact Ho].
Qed.

Lemma console_reached rt options now (ops : list (Op Terminal)) :
  Forall leaves_console ops ->
  let w := exec ops (consoling rt options now) in
  console_inv rt w /\
  with_spanStack [] (console (ext w)) = Console_new options.
Proof.
  intros Hf w. split.
  - apply console_exec; [apply consoling_inv|exact Hf].
  - unfold w. rewrite (console_settings_exec rt); [reflexivity|apply consoling_inv|exact Hf].
Qed.

Lemma same_settings (c c0 : Console) :
  with_spanStack [] c = with_spanStack [] c0 ->
  con_colors c = con_colors c0 /\
  forall md, Console_enabled md c = Console_enabled md c0.
Proof.
  intros H. unfold with_spanStack in H. injection H as H1 H2 H3 H4.
  split; [exact H2|]. intros md. unfold Console_enabled. now rewrite H1.
Qed.


Lemma console_late_exit rt (w : World Terminal) h s :
  globalSubscriber w = Some (ConsoleSubscriber rt) ->
  heap w !! h = Some s -> entered s = true ->
  spanStack (console (ext w)) = [] ->
  Console_enabled (sc_metadata (context s)) (console (ext w)) = true ->
  fst (exit h w) = Throw RangeError /\
  globalSubscriber (snd (exit h w)) = globalSubscriber w /\
  heap (snd (exit h w)) = heap w /\
  currentSpan (snd (exit h w)) = currentSpan w /\
  ext (snd (exit h w)) = ext w.
Proof.
  intros Hs Hh He Hk En. unfold exit. rewrite Hh, He.
  unfold bind, notify. simpl. rewrite Hs. simpl.
  rewrite (Console_onSpanExit_empty _ _ Hk En). simpl.
  rewrite ?Hs. auto.
Qed.

Lemma console_late_exits rt (w : World Terminal) h s n :
  globalSubscriber w = Some (ConsoleSubscriber rt) ->
  heap w !! h = Some s -> entered s = true ->
  spanStack (console (ext w)) = [] ->
  Console_enabled (sc_metadata (context s)) (console (ext w)) = true ->
  let w1 := exec (repeat (OExit h) n) w in
  fst (exit h w1) = Throw RangeError /\
  heap w1 = heap w /\
  currentSpan w1 = currentSpan w /\
  ext w1 = ext w.
Proof.
  revert w. induction n as [|n IH]; intros w Hs Hh He Hk En.
  - simpl. split; [|auto]. apply (console_late_exit rt w h s); assumption.
  - destruct (console_late_exit rt w h s) as (_ & S1 & S2 & S3 & S4);
      try assumption.
    change (exec (repeat (OExit h) (S n)) w)
      with (exec (repeat (OExit h) n) (snd (exit h w))).
    destruct (IH (snd (exit h w))) as (R & A & B & C);
      rewrite ?S1, ?S2, ?S4; try assumption.
    cbv zeta. rewrite R, A, B, C, S2, S3, S4. auto.
Qed.

(** X14.  A [ConsoleSubscriber] installed while a span is entered knows
    nothing of that span: with its span stack empty, [exit()] of the span
    (its level being enabled) throws a [RangeError] from
    [repeat(-1)], and changes nothing, however often it is called: the
    span stays entered, the current span stays, nothing is printed. *)
Theorem console_installed_late_cannot_exit rt (w : World Terminal) h s n :
  heap w !! h = Some s -> entered s = true ->
  spanStack (console (ext w)) = [] ->
  Console_enabled (sc_metadata (context s)) (console (ext w)) = true ->
  let w1 :=
    exec (OSetGlobalSubscriber (ConsoleSubscriber rt) :: repeat (OExit h) n) w in
  fst (exit h w1) = Throw RangeError /\
  heap w1 = heap w /\
  currentSpan w1 = currentSpan w /\
  ext w1 = ext w.
Proof.
  intros Hh He Hk En.
  change (exec (OSetGlobalSubscriber (ConsoleSubscriber rt) :: repeat (OExit h) n) w)
    with (exec (repeat (OExit h) n)
            (set_globalSubscriber (Some (ConsoleSubscriber rt)) w)).
  apply (console_late_exits rt
           (set_globalSubscriber (Some (ConsoleSubscriber rt)) w) h s n);
    try assumption; reflexivity.
Qed.


(** X16.  The console output is indented by two spaces for every span
    entered, counting also the spans that print nothing because their
    level is below the minimum.  With the subscriber installed first and
    [d] spans entered: the line of an [enter()] begins with [2d] spaces,
    the line of an [exit()] with [2(d-1)], and, colours being on, the
    line of an event with [2d]; a span below the minimum level prints no
    line on [enter()] and [exit()]. *)
Theorem console_indents_two_spaces_per_entered_span rt options now
    (ops : list (Op Terminal)) :
  Forall leaves_console ops ->
  let w := exec ops (consoling rt options now) in
  let c := Console_new options in
  let d := entered_count (heap w) in
  (forall h s, heap w !! h = Some s -> entered s = false ->
     exists line,
       leading_spaces line = 2 * d /\
       out (ext (snd (enter h w))) =
         if Console_enabled (sc_metadata (context s)) c
         then out (ext w) ++ [line] else out (ext w)) /\
  (forall h s, heap w !! h = Some s -> entered s = true ->
     exists line,
       leading_spaces line = 2 * (d - 1) /\
       out (ext (snd (exit h w))) =
         if Console_enabled (sc_metadata (context s)) c
         then out (ext w) ++ [line] else out (ext w)) /\
  (forall lvl message opts,
     con_colors c = true ->
     Console_enabled (emit_metadata lvl opts) c = true ->
     o_fields (normalizeLogOptions opts) <> JNull ->
     exists line,
       leading_spaces line = 2 * d /\
       out (ext (snd (emit lvl message opts w))) = out (ext w) ++ [line]).
Proof.
  intros Hf w c d. destruct (console_reached rt options now ops Hf) as [[Hs Hl] Hc].
  fold w in Hs, Hl, Hc. fold d in Hl.
  destruct (same_settings (console (ext w)) c) as [Hcol Hen].
  { rewrite Hc. reflexivity. }
  split; [|split].
  - intros h s Hh He.
    destruct (console_enter_out rt w h s Hs Hh He) as (line & L & _ & O).
    exists line. rewrite <- Hen, <- Hl. auto.
  - intros h s Hh He.
    assert (Hne : spanStack (console (ext w)) <> []).
    { intros E. rewrite E in Hl.
      pose proof (entered_count_positive _ _ _ Hh He). simpl in Hl.
      unfold d in Hl. lia. }
    destruct (console_exit_out rt w h s Hs Hh He Hne) as (line & L & _ & O).
    exists line. rewrite <- Hen, <- Hl. auto.
  - intros lvl message opts Col En Hf0.
    pose proof (console_emit rt w lvl message opts Hs) as H. cbv zeta in H.
    rewrite Hen, En in H.
    destruct (o_fields (normalizeLogOptions opts)); try contradiction;
      destruct H as (_ & line & X & L); exists line;
      (split; [rewrite <- Hl; apply L; rewrite Hcol; exact Col|]);
      rewrite X; reflexivity.
Qed.

(** ** The width of what the console subscriber prints *)

Lemma digits_short (fuel : nat) (n : Z) (acc : string) :
  (n < 10)%Z -> digits (S fuel) n acc = String (digit (n mod 10)) acc.
Proof.
  intros H. cbn [digits]. destruct (Z.ltb_spec n 10); [reflexivity|lia].
Qed.

Lemma digits_step (fuel : nat) (n : Z) (acc : string) :
  (10 <= n)%Z ->
  digits (S fuel) n acc = digits fuel (n / 10) (String (digit (n mod 10)) acc).
Proof.
  intros H. cbn [digits]. destruct (Z.ltb_spec n 10); [lia|reflexivity].
Qed.

Lemma String_number_length (n : Z) :
  (0 <= n < 1000)%Z ->
  String.length (String_number n) =
    if (n <? 10)%Z then 1 else if (n <? 100)%Z then 2 else 3.
Proof.
  intros H. unfold String_number.
  destruct (Z.ltb_spec n 0); [lia|].
  destruct (Z.ltb_spec n 10).
  - now rewrite digits_short.
  - rewrite digits_step by assumption.
    destruct (Z.ltb_spec n 100).
    + rewrite digits_short; [reflexivity|].
      apply Z.div_lt_upper_bound; lia.
    + rewrite digits_step by (apply Z.div_le_lower_bound; lia).
      rewrite digits_short; [reflexivity|].
      apply Z.div_lt_upper_bound; [lia|].
      apply Z.div_lt_upper_bound; lia.
Qed.

Lemma fill_from_length (fill : nat) (pad cur : string) :
  pad <> ""%string -> String.length (fill_from fill pad cur) = fill.
Proof.
  intros Hp. revert cur. induction fill as [|fill IH]; intros cur; [reflexivity|].
  destruct cur as [|c cur]; simpl.
  - destruct pad as [|c pad]; [contradiction|]. simpl. now rewrite IH.
  - now rewrite IH.
Qed.

Lemma String_padStart_length (s : string) (k : nat) (pad : string) :
  pad <> ""%string ->
  String.length (String_padStart s k pad) = Nat.max k (String.length s).
Proof.
  intros Hp. unfold String_padStart.
  destruct (Nat.leb_spec k (String.length s)); [lia|].
  destruct pad as [|c pad]; [contradiction|].
  change (String.eqb (String c pad) "") with false. cbv iota.
  rewrite length_append, fill_from_length by discriminate. lia.
Qed.

Lemma padded_number_length (n : Z) (k : nat) (pad : string) :
  pad <> ""%string -> (0 <= n < 1000)%Z ->
  (k = 2 /\ (n < 100)%Z) \/ k = 3 ->
  String.length (String_padStart (String_number n) k pad) = k.
Proof.
  intros Hp Hn Hk. rewrite String_padStart_length by assumption.
  rewrite String_number_length by assumption.
  destruct (Z.ltb_spec n 10); [lia|].
  destruct (Z.ltb_spec n 100); lia.
Qed.

Lemma month_name_length (m : Z) :
  (0 <= m < 12)%Z -> String.length (nth (Z.to_nat m) months "undefined") = 3.
Proof.
  intros H.
  assert (E : exists k, (k < 12)%nat /\ Z.to_nat m = k) by (eexists; split; [|reflexivity]; lia).
  destruct E as (k & Hk & ->).
  do 12 (destruct k as [|k]; [reflexivity|]). lia.
Qed.

(** X17.  The columns the console subscriber prints before a message
    have fixed widths, so that the messages of one nesting depth line up:
    for every valid date the time is 12 characters with milliseconds and
    8 without, the default date and time 19, hence the timestamp column
    with its separating space 20 (colours off); the level is 5
    characters for every level. *)
Theorem console_columns_have_fixed_width rt (ts : Z) :
  date_parts_in_range rt ts ->
  String.length (formatTime rt ts true) = 12 /\
  String.length (formatTime rt ts false) = 8 /\
  String.length (formatDateTime rt ts) = 19 /\
  (forall c, con_colors c = false ->
     con_timestampFormat c = Some FormatDatetime ->
     String.length (formatTimestamp rt c ts) = 20) /\
  (forall lvl, String.length (formatLevel lvl) = 5).
Proof.
  intros (Hmo & Hd & Hh & Hmi & Hs & Hms).
  assert (T1 : String.length (formatTime rt ts true) = 12).
  { unfold formatTime. rewrite !length_append.
    rewrite !padded_number_length by (try discriminate; lia). reflexivity. }
  assert (T2 : String.length (formatTime rt ts false) = 8).
  { unfold formatTime. rewrite !length_append.
    rewrite !padded_number_length by (try discriminate; lia). reflexivity. }
  assert (T3 : String.length (formatDateTime rt ts) = 19).
  { unfold formatDateTime. cbv zeta.
    destruct (Z.ltb_spec (getMonth rt ts) 0); [lia|].
    rewrite !length_append, T1, month_name_length by assumption.
    rewrite padded_number_length by (try discriminate; lia). reflexivity. }
  split; [exact T1|]. split; [exact T2|]. split; [exact T3|]. split.
  - intros c Hc Hf. unfold formatTimestamp. rewrite Hf, Hc.
    rewrite length_append, T3. reflexivity.
  - intros []; reflexivity.
Qed.

(** ** [instrumentAsync] *)

Section FurtherAsync.

Context {Ext : Type}.

(** X18.  A call of the function that [instrumentAsync(name, fn,
    extraFields)] returned constructs a span of its own, whose fields are
    [extraFields] with the property "args" set to the call's arguments
    (an "args" among [extraFields] is overwritten), and is [runAsync] of
    [fn] on it.  When [fn] returns a promise the call is left waiting
    with the span entered, and once the promise has settled the span is
    exited, the current span is the one from before the call, and the
    settlement is passed on; when [fn] throws, the span is exited at once
    and the returned promise is rejected with the error. *)
Theorem instrumentAsync_wraps_each_call_in_a_new_span {P A} name
    (fn : list JsValue -> M Ext P) extraFields args (w : World Ext)
    (settled : Completion A) :
  let fields := obj_set "args" (JArr args) (spread extraFields) in
  let h := length (heap w) in
  let c := new_context w name (Some fields) None in
  let w0 := snd (span name (Some fields) None w) in
  let w1 := snd (enter h w0) in
  let w2 := snd (fn args w1) in
  let r := instrumentAsync name fn extraFields args w in
  (forall sub, globalSubscriber w = Some sub ->
     fst (onSpanEnter sub c (ext w)) = Normal tt) ->
  heap w2 !! h = heap w1 !! h ->
  (forall sub2, globalSubscriber w2 = Some sub2 ->
     fst (onSpanExit sub2 c (ext w2)) = Normal tt) ->
  (heap w !! h = None /\ sc_name c = name /\ sc_fields c = fields /\
   obj_get "args" fields = JArr args /\
   (forall k, k <> "args" -> obj_get k fields = obj_get k (spread extraFields))) /\
  (forall p, fst (fn args w1) = Normal p ->
     r = (Awaiting h p, w2) /\
     heap w2 !! h = Some (mkSpan c (currentSpan w) true) /\
     exists w4,
       runAsync_resume h settled w2 = (settled, w4) /\
       currentSpan w4 = currentSpan w /\
       heap w4 !! h = Some (mkSpan c (currentSpan w) false)) /\
  (forall x, fst (fn args w1) = Throw x ->
     fst r = Rejected x /\
     currentSpan (snd r) = currentSpan w /\
     heap (snd r) !! h = Some (mkSpan c (currentSpan w) false)).
Proof.
  intros fields h c w0 w1 w2 r Hen Hsame Hex.
  assert (Hr : r = runAsync_start h (fn args) w0) by reflexivity.
  assert (Hw0 : heap w0 = heap w ++ [mkSpan c None false]) by reflexivity.
  assert (Hh0 : heap w0 !! h = Some (mkSpan c None false)).
  { rewrite Hw0, lookup_app_r by (unfold h; lia). unfold h.
    now rewrite Nat.sub_diag. }
  assert (Hen0 : fst (enter h w0) = Normal h).
  { apply (enter_returns w0 h _ Hh0 eq_refl). exact Hen. }
  destruct (enter_state w0 h _ Hh0 eq_refl) as (H1 & _). fold w1 in H1.
  assert (Hh1 : heap w1 !! h = Some (mkSpan c (currentSpan w) true)).
  { rewrite H1. apply list_lookup_insert_eq. eapply lookup_lt_Some; eauto. }
  assert (Hh2 : heap w2 !! h = Some (mkSpan c (currentSpan w) true)) by congruence.
  destruct (exit_state w2 h _ Hh2 eq_refl Hex)
    as (w4 & Hx & H4 & C4 & _).
  simpl in H4, C4.
  assert (Hh4 : heap w4 !! h = Some (mkSpan c (currentSpan w) false)).
  { rewrite H4. apply list_lookup_insert_eq. eapply lookup_lt_Some; eauto. }
  split; [|split].
  - split; [apply lookup_ge_None; unfold h; lia|].
    split; [reflexivity|]. split; [reflexivity|].
    split; [apply obj_get_set_eq|].
    intros k Hk. now apply obj_get_set_ne.
  - intros p Hp. split; [|split; [exact Hh2|]].
    + rewrite Hr. unfold runAsync_start. subst w2 w1.
      destruct (enter h w0) as [[a|y] w1]; simpl in *; [|discriminate].
      destruct (fn args w1) as [[q|y] w2]; simpl in *; [|discriminate].
      now inversion Hp.
    + exists w4. split; [|split; [exact C4|exact Hh4]].
      unfold runAsync_resume, try_finally. now rewrite Hx.
  - intros x Hx0.
    assert (Er : r = (Rejected x, w4)).
    { rewrite Hr. unfold runAsync_start. subst w2 w1.
      destruct (enter h w0) as [[a|y] w1]; simpl in *; [|discriminate].
      destruct (fn args w1) as [[q|y] w2]; simpl in *; [discriminate|].
      rewrite Hx. now inversion Hx0. }
    rewrite Er. simpl. auto.
Qed.

(** X19.  Inside [s.run(...)] the module's [currentSpanContext()] is the
    context of [s], what [s.getContext()] returns; after [run] it is
    again what it was before.  (The subscriber's span callbacks
    return.) *)
Theorem currentSpanContext_inside_run_is_the_span (w : World Ext) h s :
  heap w !! h = Some s -> entered s = false ->
  (forall sub, globalSubscriber w = Some sub -> span_quiet sub) ->
  let r := run h currentSpanContext w in
  getContext h w = Some (context s) /\
  fst r = Normal (getContext h w) /\
  fst (currentSpanContext (snd r)) = Normal (currentSpan w).
Proof.
  intros Hh He Hq r.
  assert (Hg : getContext h w = Some (context s)).
  { unfold getContext. now rewrite Hh. }
  assert (Hen : fst (enter h w) = Normal h).
  { apply (enter_returns w h s Hh He). intros sub E. apply (Hq sub E). }
  destruct (enter_state w h s Hh He) as (H1 & C1 & S1 & _).
  set (w1 := snd (enter h w)) in *.
  assert (Hh1 : heap w1 !! h = Some (mkSpan (context s) (currentSpan w) true)).
  { rewrite H1. apply list_lookup_insert_eq. eapply lookup_lt_Some; eauto. }
  assert (Hex : forall sub2, globalSubscriber w1 = Some sub2 ->
            fst (onSpanExit sub2 (context s) (ext w1)) = Normal tt).
  { intros sub2 E. rewrite S1 in E. apply (Hq sub2 E). }
  destruct (run_completes currentSpanContext w h _ Hen Hh1 eq_refl Hex)
    as (w3 & Hx & Hrun).
  destruct (exit_state w1 h _ Hh1 eq_refl Hex) as (w3' & Hx' & _ & C3 & _).
  assert (E3 : w3' = w3).
  { change (exit h w1 = (Normal tt, w3)) in Hx. congruence. }
  subst w3'. simpl in C3.
  split; [exact Hg|]. unfold r. rewrite Hrun. simpl. split.
  - fold w1. rewrite C1, Hg. reflexivity.
  - unfold currentSpanContext. simpl. now rewrite C3.
Qed.

End FurtherAsync.

Lemma collector_exec (ops : list (Op Collector)) :
  Forall stays_installed ops ->
  forall (w0 : World Collector),
    globalSubscriber w0 = Some CollectorSubscriber ->
    let w := exec ops w0 in
    minLevel (ext w) = minLevel (ext w0) /\
    exists delta,
      calls w = calls w0 ++ delta /\
      events (ext w) = events (ext w0) ++ eventCalls delta /\
      spans (ext w) = spans (ext w0) ++ spanCalls delta /\
      map (fun ev => (level (e_metadata ev), e_message ev))
        (eventCalls delta) = passed (minLevel (ext w0)) ops.
Proof.
  intros Hops.
  induction Hops as [|o ops Ho Hops IH]; intros w0 Hs; simpl.
  - split; [reflexivity|]. exists []. rewrite !app_nil_r.
    repeat split; constructor.
  - destruct (collector_step o w0 Hs Ho)
      as (Hs1 & M1 & d1 & L1 & E1 & P1 & Q1 & F1).
    destruct (IH (call o w0) Hs1) as (M2 & d2 & L2 & E2 & P2 & Q2).
    split; [congruence|]. exists (d1 ++ d2).
    rewrite L2, L1, E2, E1, P2, P1, <- !app_assoc.
    unfold eventCalls, spanCalls in *. rewrite !omap_app.
    split; [reflexivity|]. split; [reflexivity|]. split; [reflexivity|].
    rewrite map_app, Q1, Q2, M1. unfold passed. simpl.
    destruct o; simpl; try reflexivity.
    destruct (_ >=? _)%Z; reflexivity.
Qed.

(** X20.  [clear()] on an installed [CollectorSubscriber] forgets what
    was collected and nothing else: [minLevel] is kept, and afterwards
    the collector holds exactly what the module has delivered since, the
    events of the emitter calls at or above [minLevel] and every span
    notification, in order. *)
Theorem collector_clear_forgets_and_goes_on (w0 : World Collector)
    (ops : list (Op Collector)) :
  globalSubscriber w0 = Some CollectorSubscriber ->
  Forall stays_installed ops ->
  let w := exec (OOutside Collector_clear :: ops) w0 in
  minLevel (ext w) = minLevel (ext w0) /\
  exists delta,
    calls w = calls w0 ++ delta /\
    events (ext w) = eventCalls delta /\
    spans (ext w) = spanCalls delta /\
    map (fun ev => (level (e_metadata ev), e_message ev)) (events (ext w))
      = passed (minLevel (ext w0)) ops.
Proof.
  intros Hs Hops.
  change (exec (OOutside Collector_clear :: ops) w0)
    with (exec ops (call (OOutside Collector_clear) w0)).
  set (w1 := call (OOutside Collector_clear) w0).
  destruct (collector_exec ops Hops w1 Hs) as (M & delta & L & E & P & Q).
  change (minLevel (ext w1)) with (minLevel (ext w0)) in M, Q.
  change (calls w1) with (calls w0) in L.
  change (events (ext w1)) with (@nil Event) in E.
  change (spans (ext w1)) with (@nil (SpanContext * Action)) in P.
  cbv zeta. split; [exact M|]. exists delta.
  rewrite E, P. auto.
Qed.

(** ** Concrete runs *)

(** C9, as the specification has it, fails.  With a collector installed
    in the module as loaded, [instrument("f", (x) => x + 1)] called on 41
    twice constructs the spans with ids 1 and 2, which lie one apart, not
    two; both have the args [[41]]. *)
Lemma wrapped_calls_are_not_two_apart :
  let f := instrument "f" plus_one None in
  let w1 := snd (f [JNum 41] (collecting None 0)) in
  let w2 := snd (f [JNum 41] w1) in
  let id1 := sc_id <$> getContext 0 w2 in
  let id2 := sc_id <$> getContext 1 w2 in
  length (heap w2) = 2 /\
  id1 = Some 1%Z /\
  id2 = Some 2%Z /\
  map sc_id (enterCalls (calls w2)) = [1%Z; 2%Z] /\
  map (fun c => obj_get "args" (sc_fields c)) (enterCalls (calls w2))
    = [JArr [JNum 41]; JArr [JNum 41]] /\
  id2 <> (Z.add 2 <$> id1).
Proof.
  cbv zeta. repeat split; try (vm_compute; reflexivity).
  vm_compute. discriminate.
Qed.

(** The scenarios of the specification, run on the model. *)

Example levels_below_the_minimum_are_dropped :
  let w :=
    exec [OEmit TRACE "a" None; OEmit DEBUG "b" None; OEmit INFO "c" None]
      (collecting (Some INFO) 1000) in
  map e_message (eventCalls (calls w)) = ["c"] /\
  map e_message (events (ext w)) = ["c"].
Proof. cbv zeta. split; vm_compute; reflexivity. Qed.

Example outer_and_inner :
  let w :=
    snd (bind (span "outer" None None) (fun outer =>
           run outer (bind (span "inner" None None) (fun inner =>
             run inner (ret tt)))) (collecting None 1000)) in
  map (fun x => (sc_name (fst x), snd x)) (spans (ext w))
    = [("outer", ActionEnter); ("inner", ActionEnter);
       ("inner", ActionExit); ("outer", ActionExit)] /\
  (sc_parent <$> getContext 1 w) = Some (getContext 0 w) /\
  (sc_id <$> getContext 1 w) = (Z.add 1 <$> (sc_id <$> getContext 0 w)) /\
  currentSpan w = None.
Proof. cbv zeta. repeat split; vm_compute; reflexivity. Qed.

Example bare_fields_and_options :
  let w :=
    exec [OEmit INFO "plain" (Some [("userId", JNum 123)]);
          OEmit INFO "options" (Some [("target", JStr "myapp");
                                      ("fields", JObj [("rows", JNum 42)])]);
          OEmit INFO "by presence" (Some [("target", JNum 7);
                                          ("rows", JNum 42)])]
      (collecting None 1000) in
  map (fun e => (target (e_metadata e), e_fields e)) (events (ext w))
    = [(JUndefined, JObj [("userId", JNum 123)]);
       (JStr "myapp", JObj [("rows", JNum 42)]);
       (JNum 7, JObj [])].
Proof. cbv zeta. vm_compute. reflexivity. Qed.

Example failing_exit_replaces_the_error :
  let w := snd (setGlobalSubscriber (FailingExit (JStr "Y")) two_spans) in
  let r := run 1 (@throw _ unit (JStr "X")) w in
  fst r = Throw (JStr "Y") /\
  (entered <$> heap (snd r) !! 1) = Some true /\
  currentSpan (snd r) = Some ctx_a.
Proof. cbv zeta. repeat split; vm_compute; reflexivity. Qed.

Example unsubscribed_run_notifies_nobody :
  let r := run 0 (@throw _ unit (JStr "X")) unsubscribed in
  fst r = Throw (JStr "X") /\
  calls (snd r) = [] /\
  (entered <$> heap (snd r) !! 0) = Some false /\
  currentSpan (snd r) = None.
Proof. cbv zeta. repeat split; vm_compute; reflexivity. Qed.

(** ** The theorems at concrete inputs *)

Lemma exit_restores_current_span_witness :
  currentSpan two_spans = Some ctx_c /\
  currentSpan (exec [OEnter 1; OEnter 2] two_spans) = Some ctx_b /\
  currentSpan (exec [OEnter 1; OEnter 2; OExit 2; OExit 1] two_spans)
    = currentSpan two_spans /\
  exists w',
    exit 1 (exec [OEnter 2; OExit 2] (snd (enter 1 two_spans))) = (Normal tt, w') /\
    currentSpan w' = currentSpan two_spans.
Proof.
  split; [vm_compute; reflexivity|]. split; [vm_compute; reflexivity|]. split.
  - apply (proj2 exit_restores_current_span two_spans
             [OEnter 1; OEnter 2; OExit 2; OExit 1]).
    + apply (SN_span 1 [OEnter 2; OExit 2] []).
      * apply (SN_span 2 [] []); [apply SN_done| |apply SN_done].
        intros [[]|[]].
      * intros [[H|[H|[]]]|[H|[H|[]]]]; discriminate H.
      * apply SN_done.
    + intros sub E c e. vm_compute in E. inversion E. reflexivity.
    + intros h s Hm Hh. destruct h as [|[|[|h]]]; vm_compute in Hh;
        inversion Hh; try reflexivity.
      destruct Hm as [Hm|Hm]; simpl in Hm;
        repeat (destruct Hm as [Hm|Hm]; [discriminate Hm|]); destruct Hm.
  - destruct (proj1 exit_restores_current_span two_spans 1
                (mkSpan ctx_a None false) [OEnter 2; OExit 2]) as [R1 R2].
    + vm_compute; reflexivity.
    + reflexivity.
    + intros [H|[H|[]]]; discriminate H.
    + destruct R2 as [w' Hw'].
      * intros sub E. vm_compute in E. inversion E. reflexivity.
      * exists w'. split; [exact Hw'|]. apply R1. exact Hw'.
Defined.

Lemma run_exits_exactly_once_witness :
  let fn : M Collector unit := throw (JStr "X") in
  let w1 := snd (enter 1 two_spans) in
  let w2 := snd (fn w1) in
  let w3 := snd (run 1 fn two_spans) in
  (fst (enter 1 two_spans) = Normal 1 /\
   heap w2 !! 1 = Some (mkSpan ctx_a (Some ctx_c) true) /\
   globalSubscriber w2 = Some CollectorSubscriber) /\
  fst (run 1 fn two_spans) = Throw (JStr "X") /\
  exitCalls (calls w3) = exitCalls (calls w2) ++ [ctx_a] /\
  currentSpan w3 = currentSpan two_spans.
Proof.
  intros fn w1 w2 w3.
  split; [repeat split; vm_compute; reflexivity|].
  destruct (run_exits_exactly_once fn two_spans 1
              (mkSpan ctx_a (Some ctx_c) true))
    as (_ & T & E & _ & _ & _ & F).
  - vm_compute; reflexivity.
  - vm_compute; reflexivity.
  - reflexivity.
  - intros sub2 Hs. vm_compute in Hs. inversion Hs. reflexivity.
  - split; [exact (T (JStr "X") eq_refl)|]. split.
    + apply (E CollectorSubscriber). vm_compute; reflexivity.
    + apply (F (mkSpan ctx_a None false)).
      * vm_compute; reflexivity.
      * reflexivity.
      * vm_compute; reflexivity.
Defined.

Lemma enter_and_exit_are_idempotent_witness :
  let w1 := snd (enter 1 two_spans) in
  let w2 := snd (exit 1 w1) in
  (heap two_spans !! 1 = Some (mkSpan ctx_a None false) /\
   globalSubscriber two_spans = Some CollectorSubscriber) /\
  calls w1 = calls two_spans ++ [CallOnSpanEnter ctx_a] /\
  enter 1 w1 = (Normal 1, w1) /\
  calls w2 = calls w1 ++ [CallOnSpanExit ctx_a] /\
  exit 1 w2 = (Normal tt, w2) /\
  calls (exec (rounds 1 2) two_spans) =
    calls two_spans ++
    [CallOnSpanEnter ctx_a; CallOnSpanExit ctx_a;
     CallOnSpanEnter ctx_a; CallOnSpanExit ctx_a].
Proof.
  intros w1 w2.
  split; [split; vm_compute; reflexivity|].
  destruct (enter_and_exit_are_idempotent two_spans 1
              (mkSpan ctx_a None false) CollectorSubscriber)
    as (_ & A & B & C & D & R).
  - vm_compute; reflexivity.
  - reflexivity.
  - vm_compute; reflexivity.
  - intros e. reflexivity.
  - split; [exact A|]. split; [exact B|]. split; [exact C|].
    split; [exact D|]. exact (R 2).
Defined.

Lemma span_ids_count_up_witness :
  let w :=
    exec [OSpan "a" None None; OEnter 0; OSpan "b" None None; OExit 0;
          OSpan "c" None None] (initial tt 1000) in
  (exists s, heap w !! 0 = Some s /\ sc_id (context s) = 1%Z) /\
  (exists s, heap w !! 2 = Some s /\ sc_id (context s) = 3%Z) /\
  (sc_id <$> getContext 3 (snd (Span_new "d" None None w))) = Some 4%Z.
Proof.
  intros w.
  pose proof (span_ids_count_up tt 1000
                [OSpan "a" None None; OEnter 0; OSpan "b" None None; OExit 0;
                 OSpan "c" None None]) as (Hi & _ & _ & Hn).
  fold w in Hi, Hn. split; [|split].
  - destruct (heap w !! 0) as [s|] eqn:E; [|vm_compute in E; discriminate E].
    exists s. split; [reflexivity|]. exact (Hi 0 s E).
  - destruct (heap w !! 2) as [s|] eqn:E; [|vm_compute in E; discriminate E].
    exists s. split; [reflexivity|]. exact (Hi 2 s E).
  - destruct (Hn "d" None None) as (_ & H & _). exact H.
Defined.

Lemma disabled_event_is_dropped_witness :
  let w := collecting (Some INFO) 1000 in
  let r := recordEvent TRACE "a" JUndefined None w in
  enabled CollectorSubscriber (mkMetadata TRACE JUndefined None None) (ext w)
    = (Normal false, ext w) /\
  fst r = Normal tt /\
  calls (snd r) = [CallEnabled (mkMetadata TRACE JUndefined None None)] /\
  clockReads (snd r) = clockReads w /\
  events (ext (snd r)) = [].
Proof.
  intros w r. split; [reflexivity|].
  pose proof (proj1 (disabled_event_is_dropped w TRACE "a" JUndefined None)
                CollectorSubscriber (ext w) eq_refl eq_refl) as H.
  fold r in H. rewrite H. repeat split.
Defined.

Lemma span_parent_is_construction_time_current_witness :
  let r := span "d" None None two_spans in
  fst r = Normal 3 /\
  (exists sp, heap (snd r) !! 3 = Some sp /\
     sc_parent (context sp) = Some ctx_c /\
     exists sp',
       heap (exec [OExit 0; OEnter 1; OEnter 3] (snd r)) !! 3 = Some sp' /\
       context sp' = context sp) /\
  calls (snd r) = calls two_spans.
Proof.
  intros r.
  destruct (span_parent_is_construction_time_current two_spans "d" None None)
    as (R & (sp & Hsp & Hp & _ & Hk) & _ & Hc & _).
  fold r in R, Hsp, Hk, Hc. split; [exact R|]. split; [|exact Hc].
  exists sp. split; [exact Hsp|]. split; [exact Hp|].
  exact (Hk [OExit 0; OEnter 1; OEnter 3]).
Defined.

Lemma options_are_told_apart_by_key_presence_witness :
  let w := collecting None 1000 in
  eventCalls (calls (snd (info "m" (Some [("target", JStr "x")]) w))) =
    [mkEvent (mkMetadata INFO (JStr "x") None None) "m" (JObj []) None 1000] /\
  emitter WARN "m" (Some [("rows", JNum 42)]) w =
    recordEvent WARN "m" (JObj [("rows", JNum 42)])
      (Some (mkPartialMetadata None JUndefined None None)) w.
Proof.
  intros w.
  destruct (options_are_told_apart_by_key_presence w WARN "m" [("rows", JNum 42)])
    as (_ & B & _).
  destruct (options_are_told_apart_by_key_presence w INFO "m" [])
    as (_ & _ & C & _).
  split.
  - exact (C "x" CollectorSubscriber eq_refl eq_refl).
  - exact (B eq_refl eq_refl).
Defined.

Lemma absent_subscriber_is_silent_witness :
  globalSubscriber unsubscribed = None /\
  fst (enter 0 unsubscribed) = Normal 0 /\
  calls (snd (enter 0 unsubscribed)) = calls unsubscribed /\
  info "m" None unsubscribed = (Normal tt, unsubscribed).
Proof.
  split; [reflexivity|].
  destruct (absent_subscriber_is_silent unsubscribed eq_refl) as (A & _ & _ & D).
  destruct (A 0 (mkSpan (mkSpanContext 1 "a" (mkMetadata INFO JUndefined None None)
                           [] None 1000) None false))
    as [E L]; [vm_compute; reflexivity|reflexivity|].
  split; [now rewrite E|]. split; [exact L|]. exact (D INFO "m" None).
Defined.

Lemma instrument_wraps_each_call_in_a_new_span_witness :
  let w := collecting None 1000 in
  let r := instrument "f" plus_one None [JNum 41] w in
  fst r = Normal (JNum 42) /\
  heap (snd r) !! 0 =
    Some (mkSpan (new_context w "f" (Some [("args", JArr [JNum 41])]) None)
            None false) /\
  sc_id (new_context w "f" (Some [("args", JArr [JNum 41])]) None) = 1%Z /\
  sc_id (new_context (snd r) "f" (Some [("args", JArr [JNum 41])]) None) = 2%Z.
Proof.
  intros w r.
  destruct (instrument_wraps_each_call_in_a_new_span "f" plus_one None
              [JNum 41] w) as (_ & _ & _ & (R & H & _) & I & N).
  - intros sub E. vm_compute in E. inversion E. reflexivity.
  - vm_compute; reflexivity.
  - intros sub E. vm_compute in E. inversion E. reflexivity.
  - fold r in R, H, N. split; [rewrite R; reflexivity|].
    split; [exact H|]. split; [exact I|].
    exact (N eq_refl [JNum 41]).
Defined.

Lemma span_level_defaults_to_INFO_witness :
  let metadata := Some (mkPartialMetadata None (JStr "http::server") None None) in
  p_level (default no_metadata metadata) = None /\
  (level <$> (sc_metadata <$>
     getContext 3 (snd (span "handle_request" None metadata two_spans))))
    = Some INFO.
Proof.
  intros metadata. split; [reflexivity|].
  destruct (span_level_defaults_to_INFO two_spans "handle_request" None metadata
              eq_refl) as (_ & _ & H & _).
  exact H.
Defined.

(** ** Runs of the further properties *)

Lemma exits_out_of_order_leave_a_stale_current_span_witness :
  let w4 := call (OExit 2) (call (OExit 1) (exec [OEnter 1; OEnter 2] two_spans)) in
  currentSpan w4 = Some ctx_a /\
  heap w4 !! 1 = Some (mkSpan ctx_a (Some ctx_c) false).
Proof.
  intros w4.
  destruct (exits_out_of_order_leave_a_stale_current_span two_spans 1 2
              (mkSpan ctx_a None false) (mkSpan ctx_b None false))
    as (_ & _ & H1 & H2 & _).
  - discriminate.
  - vm_compute; reflexivity.
  - vm_compute; reflexivity.
  - reflexivity.
  - reflexivity.
  - intros sub E c e. vm_compute in E. inversion E. reflexivity.
  - split; [exact H1|exact H2].
Defined.

Lemma failing_onSpanExit_keeps_the_span_entered_witness :
  let w := call (OEnter 0) (one_span (FailingExit (JStr "boom"))) in
  let w' := exec (repeat (OExit 0) 3) w in
  heap w' !! 0 = Some (mkSpan ctx_1 None true) /\
  currentSpan w' = currentSpan w /\
  exitCalls (calls w') = exitCalls (calls w) ++ repeat ctx_1 3 /\
  fst (exit 0 w') = Throw (JStr "boom").
Proof.
  intros w w'.
  apply (failing_onSpanExit_keeps_the_span_entered w 0
           (mkSpan ctx_1 None true) (FailingExit (JStr "boom")) (JStr "boom") 3).
  - vm_compute; reflexivity.
  - reflexivity.
  - vm_compute; reflexivity.
  - intros e. reflexivity.
Defined.

Lemma failing_onSpanEnter_leaves_the_span_entered_witness :
  let w := one_span (FailingEnter (JStr "boom")) in
  let fn : M Collector unit := ret tt in
  run 0 fn w = (Throw (JStr "boom"), snd (enter 0 w)) /\
  heap (snd (enter 0 w)) !! 0 = Some (mkSpan ctx_1 None true).
Proof.
  intros w fn.
  destruct (failing_onSpanEnter_leaves_the_span_entered fn w 0
              (mkSpan ctx_1 None false) (FailingEnter (JStr "boom")) (JStr "boom"))
    as (_ & H1 & H2 & _).
  - vm_compute; reflexivity.
  - reflexivity.
  - vm_compute; reflexivity.
  - reflexivity.
  - split; [exact H1|]. etransitivity; [exact H2|vm_compute; reflexivity].
Defined.

Lemma failing_onSpanExit_replaces_the_outcome_of_run_witness :
  let w := one_span (FailingExit (JStr "boom")) in
  let fn : M Collector unit := throw (JStr "X") in
  let w3 := snd (run 0 fn w) in
  fst (run 0 fn w) = Throw (JStr "boom") /\
  heap w3 !! 0 = Some (mkSpan ctx_1 None true) /\
  currentSpan w3 = Some ctx_1 /\
  enter 0 w3 = (Normal 0, w3).
Proof.
  intros w fn w3.
  destruct (failing_onSpanExit_replaces_the_outcome_of_run fn w 0
              (mkSpan ctx_1 None false) (FailingExit (JStr "boom")) (JStr "boom"))
    as (H1 & H2 & H3 & H4).
  - vm_compute; reflexivity.
  - reflexivity.
  - vm_compute; reflexivity.
  - reflexivity.
  - reflexivity.
  - reflexivity.
  - vm_compute; reflexivity.
  - reflexivity.
  - split; [exact H1|]. split; [etransitivity; [exact H2|vm_compute; reflexivity]|].
    split; [exact H3|exact H4].
Defined.

Lemma runAsync_exits_once_the_promise_has_settled_witness :
  let fn : M Collector nat := ret 7 in
  let w3 := exec [OEmit INFO "meanwhile" None] (snd (fn (snd (enter 1 two_spans)))) in
  runAsync_start 1 fn two_spans = (Awaiting 1 7, snd (fn (snd (enter 1 two_spans)))) /\
  exists w4,
    runAsync_resume 1 (Throw (JStr "rejected") : Completion unit) w3
      = (Throw (JStr "rejected"), w4) /\
    currentSpan w4 = currentSpan two_spans /\
    heap w4 !! 1 = Some (mkSpan ctx_a (currentSpan two_spans) false).
Proof.
  intros fn w3.
  pose proof (runAsync_exits_once_the_promise_has_settled fn two_spans 1
                (mkSpan ctx_a None false) 7
                (Throw (JStr "rejected") : Completion unit)
                [OEmit INFO "meanwhile" None]) as H.
  cbv zeta in H.
  feed H ltac:(vm_compute; reflexivity).
  feed H ltac:(reflexivity).
  feed H ltac:(installed_collector).
  feed H ltac:(vm_compute; reflexivity).
  feed H ltac:(vm_compute; reflexivity).
  feed H ltac:(intros [H0|[]]; discriminate H0).
  feed H ltac:(installed_collector).
  destruct H as (H1 & _ & w4 & H2 & H3 & H4 & _).
  split; [exact H1|]. exists w4. split; [exact H2|]. split; [exact H3|exact H4].
Defined.

Lemma runAsync_rejects_when_fn_throws_witness :
  let fn : M Collector nat := throw (JStr "X") in
  let r := runAsync_start 1 fn two_spans in
  fst r = Rejected (JStr "X") /\
  currentSpan (snd r) = currentSpan two_spans.
Proof.
  intros fn r.
  destruct (runAsync_rejects_when_fn_throws fn two_spans 1
              (mkSpan ctx_a None false) (JStr "X")) as (H1 & H2 & _).
  - vm_compute; reflexivity.
  - vm_compute; reflexivity.
  - intros sub E. vm_compute in E. inversion E. vm_compute; reflexivity.
  - vm_compute; reflexivity.
  - vm_compute; reflexivity.
  - intros sub E. vm_compute in E. inversion E. vm_compute; reflexivity.
  - split; [exact H1|exact H2].
Defined.

Lemma events_in_run_belong_to_the_span_witness :
  let r := run 1 (emit ERROR "failed" None) two_spans in
  fst r = Normal tt /\
  calls (snd r) =
    calls two_spans ++
    [CallOnSpanEnter ctx_a; CallEnabled (emit_metadata ERROR None);
     CallOnEvent
       (mkEvent (emit_metadata ERROR None) "failed" (emit_fields None)
          (Some ctx_a) (clock two_spans));
     CallOnSpanExit ctx_a] /\
  currentSpan (snd r) = currentSpan two_spans.
Proof.
  apply (events_in_run_belong_to_the_span two_spans 1
           (mkSpan ctx_a None false) CollectorSubscriber ERROR "failed" None).
  - vm_compute; reflexivity.
  - reflexivity.
  - vm_compute; reflexivity.
  - intros c e. split; reflexivity.
  - intros e. simpl. destruct (minLevel e); reflexivity.
  - intros ev e. reflexivity.
Defined.


Lemma onEvent_comes_right_after_enabled_witness :
  let md := mkMetadata INFO JUndefined None None in
  exists l0, [CallEnabled md] = l0 ++ [CallEnabled md].
Proof.
  intros md.
  apply (onEvent_comes_right_after_enabled (Collector_new None) 1000
           [OSetGlobalSubscriber CollectorSubscriber; OEmit INFO "m" None]
           [CallEnabled md] (mkEvent md "m" (JObj []) None 1000) []).
  vm_compute; reflexivity.
Defined.

Lemma nested_runs_give_parent_and_child_witness :
  let w := collecting None 1000 in
  let prog : M Collector JsValue :=
    bind (span "outer" None None) (fun o =>
      run o (bind (span "inner" None None) (fun i =>
        run i (fun w' => (Normal (JNum 42), w'))))) in
  let co := mkSpanContext 1 "outer" (mkMetadata INFO JUndefined None None) [] None 1000 in
  let ci := mkSpanContext 2 "inner" (mkMetadata INFO JUndefined None None) [] (Some co) 1000 in
  fst (prog w) = Normal (JNum 42) /\
  calls (snd (prog w)) =
    calls w ++
    [CallOnSpanEnter co; CallOnSpanEnter ci;
     CallOnSpanExit ci; CallOnSpanExit co] /\
  currentSpan (snd (prog w)) = currentSpan w /\
  (context <$> heap (snd (prog w)) !! length (heap w)) = Some co /\
  (context <$> heap (snd (prog w)) !! S (length (heap w))) = Some ci.
Proof.
  intros w prog co ci.
  apply (nested_runs_give_parent_and_child (Normal (JNum 42)) w
           CollectorSubscriber "outer" None None "inner" None None).
  - reflexivity.
  - intros c e. split; reflexivity.
Defined.

Lemma collector_keeps_what_it_is_told_witness :
  let ops : list (Op Collector) :=
    [OEmit DEBUG "dropped" None; OSpan "a" None None; OEnter 0;
     OEmit WARN "kept" None; OExit 0] in
  let c := ext (exec ops (collecting (Some INFO) 1000)) in
  minLevel c = INFO /\
  map (fun ev => (level (e_metadata ev), e_message ev)) (events c)
    = [(WARN, "kept")].
Proof.
  intros ops c.
  destruct (collector_keeps_what_it_is_told (Some INFO) 1000 ops)
    as (H1 & _ & _ & H2 & _).
  - repeat constructor.
  - split; [exact H1|]. etransitivity; [exact H2|vm_compute; reflexivity].
Defined.


Lemma console_installed_late_cannot_exit_witness :
  let w1 :=
    exec (OSetGlobalSubscriber (ConsoleSubscriber utc) :: repeat (OExit 0) 2)
      entered_before in
  fst (exit 0 w1) = Throw RangeError /\
  heap w1 = heap entered_before /\
  currentSpan w1 = currentSpan entered_before /\
  ext w1 = ext entered_before.
Proof.
  apply (console_installed_late_cannot_exit utc entered_before 0
           (mkSpan ctx_1 None true) 2); vm_compute; reflexivity.
Defined.


Lemma console_indents_two_spaces_per_entered_span_witness :
  let w := exec [quiet_span; OEnter 0] (consoling utc None 1000) in
  out (ext w) = [] /\
  exists line,
    leading_spaces line = 2 /\
    out (ext (snd (emit INFO "inside" None w))) = out (ext w) ++ [line].
Proof.
  intros w.
  pose proof (console_indents_two_spaces_per_entered_span utc None 1000
                [quiet_span; OEnter 0]) as H.
  cbv zeta in H.
  feed H ltac:(repeat constructor).
  destruct H as (_ & _ & H3).
  split; [vm_compute; reflexivity|].
  destruct (H3 INFO "inside" None) as (line & L & O);
    [vm_compute; reflexivity|vm_compute; reflexivity|discriminate|].
  exists line. split; [|exact O].
  etransitivity; [exact L|vm_compute; reflexivity].
Defined.

Lemma console_columns_have_fixed_width_witness :
  String.length (formatTime utc 1700000000123 true) = 12 /\
  String.length (formatDateTime utc 1700000000123) = 19 /\
  formatDateTime utc 1700000000123 = "Nov 14 22:13:20.123".
Proof.
  pose proof (console_columns_have_fixed_width utc 1700000000123) as H.
  feed H ltac:(unfold date_parts_in_range; in_range).
  destruct H as (H1 & _ & H3 & _).
  split; [exact H1|]. split; [exact H3|vm_compute; reflexivity].
Defined.

Lemma instrumentAsync_wraps_each_call_in_a_new_span_witness :
  let fn : list JsValue -> M Collector nat := fun _ => ret 7 in
  let w := collecting None 1000 in
  let fields := obj_set "args" (JArr [JNum 41]) (spread (Some [("args", JNull)])) in
  let w2 := snd (fn [JNum 41] (snd (enter 0 (snd (span "f" (Some fields) None w))))) in
  obj_get "args" fields = JArr [JNum 41] /\
  instrumentAsync "f" fn (Some [("args", JNull)]) [JNum 41] w = (Awaiting 0 7, w2) /\
  exists w4,
    runAsync_resume 0 (Normal (JNum 42)) w2 = (Normal (JNum 42), w4) /\
    currentSpan w4 = currentSpan w.
Proof.
  intros fn w fields w2.
  pose proof (instrumentAsync_wraps_each_call_in_a_new_span "f" fn
                (Some [("args", JNull)]) [JNum 41] w (Normal (JNum 42))) as H.
  cbv zeta in H.
  feed H ltac:(installed_collector).
  feed H ltac:(vm_compute; reflexivity).
  feed H ltac:(installed_collector).
  destruct H as ((_ & _ & _ & H1 & _) & H2 & _).
  destruct (H2 7) as (R & _ & w4 & X & C & _); [vm_compute; reflexivity|].
  split; [exact H1|]. split; [exact R|]. exists w4. split; [exact X|exact C].
Defined.

Lemma currentSpanContext_inside_run_is_the_span_witness :
  fst (run 1 currentSpanContext two_spans) = Normal (getContext 1 two_spans) /\
  getContext 1 two_spans = Some ctx_a.
Proof.
  pose proof (currentSpanContext_inside_run_is_the_span two_spans 1
                (mkSpan ctx_a None false)) as H.
  cbv zeta in H.
  feed H ltac:(vm_compute; reflexivity).
  feed H ltac:(reflexivity).
  feed H ltac:(intros sub E; vm_compute in E; inversion E; intros c e;
               split; reflexivity).
  destruct H as (H1 & H2 & _).
  split; [exact H2|exact H1].
Defined.

Lemma collector_clear_forgets_and_goes_on_witness :
  let w0 := exec [OEmit INFO "old" None] (collecting None 1000) in
  let w := exec [OOutside Collector_clear; OEmit WARN "new" None] w0 in
  map (fun ev => (level (e_metadata ev), e_message ev)) (events (ext w0))
    = [(INFO, "old")] /\
  map (fun ev => (level (e_metadata ev), e_message ev)) (events (ext w))
    = [(WARN, "new")].
Proof.
  intros w0 w.
  pose proof (collector_clear_forgets_and_goes_on w0 [OEmit WARN "new" None]) as H.
  cbv zeta in H.
  feed H ltac:(vm_compute; reflexivity).
  feed H ltac:(repeat constructor).
  destruct H as (_ & delta & _ & _ & _ & Q).
  split; [vm_compute; reflexivity|].
  etransitivity; [exact Q|vm_compute; reflexivity].
Defined.
